(** * Verification of the chart-rendering engine of benchmark-comment-and-plot-action

    Shallow embedding of the browser script (chart building, key codec, unit
    normalisation, filter interface) and of [addBenchmarkToDataJson] of
    [updateBenchmarkData.ts].

    Modelling conventions:
    - a JavaScript string is the list of its UTF-16 code units ([jsstring]);
    - a JavaScript number read from the JSON data is an integer of magnitude
      below 1e21 (whose [toString] is its plain decimal form) where it is
      printed, and a rational where it is only computed with;
    - a plain JavaScript object is the list of its own properties in
      insertion order; enumeration order (array-index keys first) is applied
      where the code enumerates ([js_order]);
    - a thrown exception is [None]. *)

From Stdlib Require Import List Bool Arith ZArith NArith QArith Lia.
From Stdlib Require Import String Ascii Permutation.
Import ListNotations.
Open Scope N_scope.
Set Warnings "-register-all".

(* ------------------------------------------------------------------ *)
(** ** JavaScript strings *)

Abbreviation jsstring := (list N).

(** Latin-1 literal: each character of a Rocq string is one code unit. *)
Definition js (s : string) : jsstring :=
  map (fun a => N.of_nat (nat_of_ascii a)) (list_ascii_of_string s).

(** Literal in which an apostrophe stands for a double quote (JSON texts). *)
Definition jsq (s : string) : jsstring :=
  map (fun c => if c =? 39 then 34 else c) (js s).

Fixpoint str_eqb (a b : jsstring) : bool :=
  match a, b with
  | [], [] => true
  | x :: a', y :: b' => (x =? y) && str_eqb a' b'
  | _, _ => false
  end.

(** [Array.prototype.join]-style concatenation with a separator. *)
Fixpoint join (sep : jsstring) (l : list jsstring) : jsstring :=
  match l with
  | [] => []
  | [x] => x
  | x :: r => x ++ sep ++ join sep r
  end.

(** Decimal form of an integer: [Number.prototype.toString] for integers of
    magnitude below 1e21. *)
Fixpoint digits_of_pos (fuel : nat) (p : N) (acc : jsstring) : jsstring :=
  match fuel with
  | O => acc
  | S f =>
      let acc' := (48 + p mod 10) :: acc in
      if p <? 10 then acc' else digits_of_pos f (p / 10) acc'
  end.

Definition nat_to_string (n : N) : jsstring :=
  digits_of_pos (S (N.to_nat (N.log2 n))) n [].

(** Number::toString on an integer of magnitude below 1e21 (decimal digits;
    from 1e21 on JavaScript switches to exponent form, so statements that
    print numbers assume [small_numbers]). *)
Definition number_to_string (z : Z) : jsstring :=
  match z with
  | Z.neg p => 45 :: nat_to_string (Npos p)
  | _ => nat_to_string (Z.to_N z)
  end.

(* ------------------------------------------------------------------ *)
(** ** JavaScript values and plain objects *)

Inductive jsval : Type :=
| JUndef
| JNull
| JBool (b : bool)
| JNum (z : Z)
| JStr (s : jsstring)
| JArr (l : list jsval)
| JObj (o : list (jsstring * jsval)).

Abbreviation obj := (list (jsstring * jsval)).

(** The abstract operation ToString (template literals, [String(x)]), on
    values for which it returns ([to_string_ok] below). *)
Fixpoint to_string (v : jsval) : jsstring :=
  match v with
  | JUndef => js "undefined"
  | JNull => js "null"
  | JBool true => js "true"
  | JBool false => js "false"
  | JNum z => number_to_string z
  | JStr s => s
  | JArr l =>
      join (js ",")
        (map (fun x => match x with
                       | JUndef | JNull => []
                       | _ => to_string x
                       end) l)
  | JObj _ => js "[object Object]"
  end.

Definition truthy (v : jsval) : bool :=
  match v with
  | JUndef | JNull => false
  | JBool b => b
  | JNum z => negb (z =? 0)%Z
  | JStr s => match s with [] => false | _ => true end
  | JArr _ | JObj _ => true
  end.

Fixpoint own_get (o : obj) (k : jsstring) : option jsval :=
  match o with
  | [] => None
  | (k', v) :: r => if str_eqb k k' then Some v else own_get r k
  end.

(** Property read [o[k]] of an own property; absent properties read as
    [undefined]. *)
Definition get (o : obj) (k : jsstring) : jsval :=
  match own_get o k with Some v => v | None => JUndef end.

(** Whether ToString of [v] returns rather than throws. A JSON object with an
    own [toString] property holds a non-callable value there, so
    OrdinaryToPrimitive finds no callable [toString] and [valueOf] returns the
    object itself: a TypeError. Objects without one print through
    [Object.prototype.toString]; arrays print their elements through
    [Array.prototype.join]. *)
Fixpoint to_string_ok (v : jsval) : bool :=
  match v with
  | JObj o => match own_get o (js "toString") with Some _ => false | None => true end
  | JArr l => forallb to_string_ok l
  | _ => true
  end.


(** The method call [v.toString()]: a TypeError on [null] and [undefined],
    and on an object with an own (non-callable) [toString] property;
    [Array.prototype.toString] throws when ToString of an element does. *)
Definition call_to_string (v : jsval) : option jsstring :=
  match v with
  | JUndef | JNull => None
  | _ => if to_string_ok v then Some (to_string v) else None
  end.

(** CreateDataProperty: replace the value in place or append. *)
Fixpoint define (o : obj) (k : jsstring) (v : jsval) : obj :=
  match o with
  | [] => [(k, v)]
  | (k', v') :: r =>
      if str_eqb k k' then (k', v) :: r else (k', v') :: define r k v
  end.

(** Assignment [o[k] = v] of a primitive value: for the key [__proto__] the
    inherited accessor ignores a primitive and no own property is created. *)
Definition assign (o : obj) (k : jsstring) (v : jsval) : obj :=
  if str_eqb k (js "__proto__") then o else define o k v.

(** The method call [o.hasOwnProperty(k)]: a TypeError when the object has an
    own (non-function, JSON-valued) property named [hasOwnProperty]. *)
Definition has_own (o : obj) (k : jsstring) : option bool :=
  match own_get o (js "hasOwnProperty") with
  | Some _ => None
  | None => Some (if own_get o k then true else false)
  end.

(* ------------------------------------------------------------------ *)
(** ** JSON text of flat string-valued objects *)

(** Lower-case hexadecimal digit, as produced by [JSON.stringify]. *)
Definition hex_digit (d : N) : N := if d <? 10 then 48 + d else 87 + d.

(** [\uXXXX] escape of a code unit below 0x10000. *)
Definition u_escape (c : N) : jsstring :=
  [92; 117; hex_digit (c / 4096 mod 16); hex_digit (c / 256 mod 16);
   hex_digit (c / 16 mod 16); hex_digit (c mod 16)].

Definition is_high_surrogate (c : N) : bool := (55296 <=? c) && (c <=? 56319).
Definition is_low_surrogate (c : N) : bool := (56320 <=? c) && (c <=? 57343).

(** Body of QuoteJSONString (ES2019 well-formed [JSON.stringify]): the short
    escapes, [\u00XX] for the other control characters, [\uXXXX] for lone
    surrogates, every other code unit (and surrogate pair) verbatim. *)
Fixpoint quote_body (s : jsstring) : jsstring :=
  match s with
  | [] => []
  | c :: r =>
      if c =? 34 then 92 :: 34 :: quote_body r
      else if c =? 92 then 92 :: 92 :: quote_body r
      else if c =? 8 then 92 :: 98 :: quote_body r
      else if c =? 12 then 92 :: 102 :: quote_body r
      else if c =? 10 then 92 :: 110 :: quote_body r
      else if c =? 13 then 92 :: 114 :: quote_body r
      else if c =? 9 then 92 :: 116 :: quote_body r
      else if c <? 32 then u_escape c ++ quote_body r
      else if is_high_surrogate c then
        match r with
        | l :: r' =>
            if is_low_surrogate l then c :: l :: quote_body r'
            else u_escape c ++ quote_body r
        | [] => u_escape c
        end
      else if is_low_surrogate c then u_escape c ++ quote_body r
      else c :: quote_body r
  end.

Definition quote (s : jsstring) : jsstring := 34 :: quote_body s ++ [34].

(** JSON.parse: value of a hexadecimal digit (either case). *)
Definition hex_value (c : N) : option N :=
  if (48 <=? c) && (c <=? 57) then Some (c - 48)
  else if (97 <=? c) && (c <=? 102) then Some (c - 87)
  else if (65 <=? c) && (c <=? 70) then Some (c - 55)
  else None.

Definition hex4 (a b c d : N) : option N :=
  match hex_value a, hex_value b, hex_value c, hex_value d with
  | Some x, Some y, Some z, Some w => Some (x * 4096 + y * 256 + z * 16 + w)
  | _, _, _, _ => None
  end.

Definition simple_escape (e : N) : option N :=
  if e =? 34 then Some 34 else if e =? 92 then Some 92
  else if e =? 47 then Some 47 else if e =? 98 then Some 8
  else if e =? 102 then Some 12 else if e =? 110 then Some 10
  else if e =? 114 then Some 13 else if e =? 116 then Some 9
  else None.

Definition cons_fst (c : N) (p : option (jsstring * jsstring))
  : option (jsstring * jsstring) :=
  match p with Some (x, rest) => Some (c :: x, rest) | None => None end.

(** JSON.parse: the body of a string literal after its opening quote; returns
    the string and the text after the closing quote. *)
Fixpoint parse_str (s : jsstring) : option (jsstring * jsstring) :=
  match s with
  | [] => None
  | c :: r =>
      if c =? 34 then Some ([], r)
      else if c =? 92 then
        match r with
        | e :: r1 =>
            if e =? 117 then
              match r1 with
              | a :: b :: c' :: d :: r' =>
                  match hex4 a b c' d with
                  | Some u => cons_fst u (parse_str r')
                  | None => None
                  end
              | _ => None
              end
            else
              match simple_escape e with
              | Some u => cons_fst u (parse_str r1)
              | None => None
              end
        | [] => None
        end
      else if c <? 32 then None
      else cons_fst c (parse_str r)
  end.

(** Canonical numeric string of an array index (below 2^32 - 1). *)
Fixpoint digits_value (k : jsstring) (acc : N) : option N :=
  match k with
  | [] => Some acc
  | c :: r =>
      if (48 <=? c) && (c <=? 57) then digits_value r (acc * 10 + (c - 48))
      else None
  end.

Definition array_index (k : jsstring) : option N :=
  match k with
  | [] => None
  | [48] => Some 0
  | 48 :: _ => None
  | _ => match digits_value k 0 with
         | Some n => if n <? 4294967295 then Some n else None
         | None => None
         end
  end.

Definition is_index (k : jsstring) : bool :=
  match array_index k with Some _ => true | None => false end.

Section Order.
Context {A : Type}.

Fixpoint ins_index (n : N) (e : jsstring * A) (l : list (N * (jsstring * A)))
  : list (N * (jsstring * A)) :=
  match l with
  | [] => [(n, e)]
  | (m, e') :: r => if n <? m then (n, e) :: l else (m, e') :: ins_index n e r
  end.

Definition index_entries (o : list (jsstring * A)) : list (N * (jsstring * A)) :=
  fold_right (fun e acc =>
                match array_index (fst e) with
                | Some n => ins_index n e acc
                | None => acc
                end) [] o.

(** OrdinaryOwnPropertyKeys: array-index keys in ascending order, then the
    other string keys in insertion order. *)
Definition js_order (o : list (jsstring * A)) : list (jsstring * A) :=
  map snd (index_entries o) ++ filter (fun e => negb (is_index (fst e))) o.
End Order.

(** [JSON.stringify] of a plain object whose members are strings (members
    valued [undefined] are skipped); other member values are outside this
    fragment ([None]). *)
Fixpoint string_members (l : obj) : option (list (jsstring * jsstring)) :=
  match l with
  | [] => Some []
  | (k, JStr s) :: r =>
      match string_members r with Some m => Some ((k, s) :: m) | None => None end
  | (_, JUndef) :: r => string_members r
  | _ :: _ => None
  end.

Definition member_text (m : jsstring * jsstring) : jsstring :=
  quote (fst m) ++ 58 :: quote (snd m).

Definition stringify_flat (o : obj) : option jsstring :=
  match string_members (js_order o) with
  | Some m => Some (123 :: join [44] (map member_text m) ++ [125])
  | None => None
  end.

(** [JSON.parse] on texts of flat objects with string members, without
    insignificant whitespace ([None]: a syntax error, or a text outside this
    fragment).  Members are created with CreateDataProperty. *)
Fixpoint parse_members (fuel : nat) (s : jsstring) (acc : obj) : option obj :=
  match fuel with
  | O => None
  | S f =>
      match s with
      | 34 :: r =>
          match parse_str r with
          | Some (k, 58 :: 34 :: r2) =>
              match parse_str r2 with
              | Some (v, 44 :: r3) => parse_members f r3 (define acc k (JStr v))
              | Some (v, [125]) => Some (define acc k (JStr v))
              | _ => None
              end
          | _ => None
          end
      | _ => None
      end
  end.

Definition json_parse_flat (s : jsstring) : option obj :=
  match s with
  | [123; 125] => Some []
  | 123 :: r => parse_members (List.length r) r []
  | _ => None
  end.

(* ------------------------------------------------------------------ *)
(** ** Key codec: [buildKey] and [parseKey] *)

Definition dash : jsstring := [45].

Definition build_key_step (benchItem : obj) (key : obj) (s : jsstring)
  : option obj :=
  match has_own benchItem s with
  | None => None
  | Some true =>
      match call_to_string (get benchItem s) with
      | Some v => Some (assign key s (JStr v))
      | None => None
      end
  | Some false => Some (assign key s (JStr dash))
  end.

Fixpoint build_key_obj (benchItem : obj) (schema : list jsstring) (key : obj)
  : option obj :=
  match schema with
  | [] => Some key
  | s :: r =>
      match build_key_step benchItem key s with
      | Some key' => build_key_obj benchItem r key'
      | None => None
      end
  end.

(** [buildKey(benchItem, schema)]. *)
Definition buildKey (benchItem : obj) (schema : list jsstring) : option jsstring :=
  match build_key_obj benchItem schema [] with
  | Some key => stringify_flat key
  | None => None
  end.

Fixpoint parse_key_fill (key : obj) (schema : list jsstring) : option obj :=
  match schema with
  | [] => Some key
  | s :: r =>
      match has_own key s with
      | None => None
      | Some true => parse_key_fill key r
      | Some false => parse_key_fill (assign key s (JStr dash)) r
      end
  end.

(** [parseKey(keyString, schema)]. *)
Definition parseKey (keyString : jsstring) (schema : list jsstring) : option obj :=
  match json_parse_flat keyString with
  | Some key => parse_key_fill key schema
  | None => None
  end.

(* ------------------------------------------------------------------ *)
(** ** Unit normalisation: [getNanoseconds] and [adjustDataAndUnit] *)

Open Scope Q_scope.

(** [getNanoseconds(value, unit)] for a unit string: [unit[0]] is the first
    code unit ([undefined] for the empty string, which reaches [default]). *)
Definition getNanoseconds (value : Q) (unit : jsstring) : option Q :=
  match unit with
  | [] => None
  | c :: _ =>
      if ((c =? 956) || (c =? 181) || (c =? 117))%N then Some (value * 1000)
      else if (c =? 110)%N then Some value
      else if (c =? 109)%N then Some (value * 1000000)
      else if (c =? 115)%N then Some (value * 1000000000)
      else None
  end.

(** [Math.max(...xs)]; [None] is [-Infinity]. *)
Definition js_max2 (a b : option Q) : option Q :=
  match a, b with
  | None, m | m, None => m
  | Some x, Some y => if Qle_bool x y then Some y else Some x
  end.

Definition js_max (xs : list (option Q)) : option Q := fold_left js_max2 xs None.

(** [x > b] for a number [x] ([-Infinity] is never greater). *)
Definition gtq (x : option Q) (b : Q) : bool :=
  match x with None => false | Some q => negb (Qle_bool q b) end.

Definition micro_s_iter : jsstring := 956%N :: js "s/iter".

(** Scale factor and unit chosen from the maximum. *)
Definition best_unit (maxValue : option Q) : Q * jsstring :=
  if gtq maxValue 1000000000 then (1000000000, js "s/iter")
  else if gtq maxValue 1000000 then (1000000, js "ms/iter")
  else if gtq maxValue 1000 then (1000, micro_s_iter)
  else (1, js "ns/iter").

(** [adjustDataAndUnit(traces)] on the traces' [dataNs]: returns the unit and
    the [y] array written into each trace. *)
Definition adjustDataAndUnit (dataNs : list (list Q)) : jsstring * list (list Q) :=
  let maxes := map (fun d => js_max (map Some d)) dataNs in
  let maxValue := js_max maxes in
  let (scaleFactor, unit) := best_unit maxValue in
  (unit, map (fun d => map (fun x => x / scaleFactor) d) dataNs).

Close Scope Q_scope.

(* ------------------------------------------------------------------ *)
(** ** History data: commits, entries, observations, traces *)

(** The fields of the [Commit] interface the code reads. *)
Record Commit := mkCommit {
  commit_id : jsstring;
  commit_message : jsstring;
  commit_url : jsstring }.

(** [Benchmark] (a history entry); each bench result is a plain object. *)
Record Benchmark := mkBenchmark {
  commit : Commit;
  date : Z;
  bigger_is_better : bool;
  benches : list obj }.

(** [{ commit, date, bench }] built by [separateAllTraces]. *)
Record Observation := mkObservation {
  obs_commit : Commit;
  obs_date : Z;
  obs_bench : obj }.

(** A trace as built by [separateAllTraces] ([showlegend] and [hoverinfo]
    are constants and left out). *)
Record Trace := mkTrace {
  metadata : obj;
  x : list Z;
  dataNs : list Q;
  dataset : list Observation }.

(** [getNanoseconds(d.bench.value, d.bench.unit)] for a bench result whose
    [value] is a number and [unit] a string, [None] when the unit is not
    recognised (the thrown [Error]). Other shapes are outside the modelled
    domain and also give [None], although JavaScript may not throw there: a
    [value] that is a string, [null] or missing is coerced by [*] (possibly
    to [NaN]), which the rational [dataNs] cannot hold. Statements about
    traces therefore assume [bench_ns <> None] on every result. *)
Definition bench_ns (bench : obj) : option Q :=
  match get bench (js "value"), get bench (js "unit") with
  | JNum z, JStr u => getNanoseconds (inject_Z z) u
  | _, _ => None
  end.

Fixpoint map_opt {A B} (f : A -> option B) (l : list A) : option (list B) :=
  match l with
  | [] => Some []
  | a :: r =>
      match f a with
      | Some b => match map_opt f r with Some m => Some (b :: m) | None => None end
      | None => None
      end
  end.

(** [Object.groupBy]: groups in order of first appearance of their key. *)
Fixpoint group_add {A} (groups : list (jsstring * list A)) (k : jsstring) (a : A)
  : list (jsstring * list A) :=
  match groups with
  | [] => [(k, [a])]
  | (k', l) :: r =>
      if str_eqb k k' then (k', l ++ [a]) :: r else (k', l) :: group_add r k a
  end.

Fixpoint group_by {A} (keyOf : A -> option jsstring) (acc : list (jsstring * list A))
  (l : list A) : option (list (jsstring * list A)) :=
  match l with
  | [] => Some acc
  | a :: r =>
      match keyOf a with
      | Some k => group_by keyOf (group_add acc k a) r
      | None => None
      end
  end.

Definition flatten_history (commits : list Benchmark) : list Observation :=
  flat_map (fun e => map (fun b => mkObservation (commit e) (date e) b) (benches e))
    commits.

Definition build_trace (schema : list jsstring) (entry : jsstring * list Observation)
  : option Trace :=
  let (keyString, ds) := entry in
  match parseKey keyString schema with
  | None => None
  | Some md =>
      match map_opt (fun d => bench_ns (obs_bench d)) ds with
      | None => None
      | Some ns =>
          Some (mkTrace (assign md (js "unit") (JStr (js "ns/iter")))
                  (map obs_date ds) ns ds)
      end
  end.

(** [separateAllTraces(commits, schema)]. *)
Definition separateAllTraces (commits : list Benchmark) (schema : list jsstring)
  : option (list Trace) :=
  let data := flatten_history commits in
  match group_by (fun d => buildKey (obs_bench d) schema) [] data with
  | None => None
  | Some groupedData => map_opt (build_trace schema) (js_order groupedData)
  end.

(* ------------------------------------------------------------------ *)
(** ** Legend names and tooltips *)

(** [Array.prototype.join(sep)]: [null] and [undefined] become empty. *)
Definition array_join (sep : jsstring) (l : list jsval) : jsstring :=
  join sep (map (fun v => match v with JUndef | JNull => [] | _ => to_string v end) l).

Definition includes (l : list jsstring) (k : jsstring) : bool :=
  existsb (str_eqb k) l.

(** [getLegendName(trace, groupBy, schema)]. *)
Definition getLegendName (tr : Trace) (groupBy schema : list jsstring) : jsstring :=
  let orderedEntries := map (fun key => (key, get (metadata tr) key)) schema in
  array_join [32]
    (map snd (filter (fun kv =>
       negb (includes groupBy (fst kv)) && negb (str_eqb (fst kv) (js "unit")) &&
       match snd kv with JUndef => false | _ => true end) orderedEntries)).

(** [getObservationTooltipText(name, observation)]. *)
Definition getObservationTooltipText (name : jsstring) (o : Observation) : jsstring :=
  let value := get (obs_bench o) (js "value") in
  let unit := get (obs_bench o) (js "unit") in
  let range := get (obs_bench o) (js "range") in
  let rangeText := if truthy range then to_string range else [] in
  js "<b>" ++ name ++ js "</b><br>value: " ++ to_string value ++ js " " ++
  to_string unit ++ js " " ++ rangeText ++ js "<br>commit id: " ++
  commit_id (obs_commit o) ++ js "<br>commit name: " ++
  commit_message (obs_commit o) ++ js "<br>commit url: " ++ commit_url (obs_commit o).


(** [addLegendNameAndTooltip(trace, groupBy, schema)]: the [name] and [text]
    it writes into the trace. *)
Definition addLegendNameAndTooltip (tr : Trace) (groupBy schema : list jsstring)
  : jsstring * list jsstring :=
  let name := getLegendName tr groupBy schema in
  (name, map (getObservationTooltipText name) (dataset tr)).

(* ------------------------------------------------------------------ *)
(** ** Filter interface: [setChartHiddenStatus] *)

(** HTML attribute names are ASCII-lower-cased by [setAttribute] and
    [getAttribute]. *)
Definition ascii_lower (s : jsstring) : jsstring :=
  map (fun c => if (65 <=? c) && (c <=? 90) then c + 32 else c) s.

(** A chart element: its attributes and whether [style.display] is [none]. *)
Record Chart := mkChart {
  attrs : list (jsstring * jsstring);
  display_none : bool }.

Fixpoint attr_lookup (l : list (jsstring * jsstring)) (k : jsstring) : option jsstring :=
  match l with
  | [] => None
  | (k', v) :: r => if str_eqb k k' then Some v else attr_lookup r k
  end.

Fixpoint attr_update (l : list (jsstring * jsstring)) (k v : jsstring)
  : list (jsstring * jsstring) :=
  match l with
  | [] => [(k, v)]
  | (k', v') :: r =>
      if str_eqb k k' then (k', v) :: r else (k', v') :: attr_update r k v
  end.

Definition getAttribute (c : Chart) (k : jsstring) : option jsstring :=
  attr_lookup (attrs c) (ascii_lower k).

(** The effect of [Element.setAttribute] with a valid attribute name; the
    name check, and the [InvalidCharacterError] otherwise, are in
    [addAttributesToChartElement] ([valid_attr_name]). *)
Definition setAttribute (c : Chart) (k v : jsstring) : Chart :=
  mkChart (attr_update (attrs c) (ascii_lower k) v) (display_none c).

(** A primitive JavaScript value held in [hiddenBy]: a number ([None] is
    NaN) or a string. *)
Inductive Prim := PNum (n : option Z) | PStr (s : jsstring).

(** StringToNumber on the strings that reach it here: empty is 0, an optional
    sign followed by decimal digits is that integer, anything else is NaN. *)
Fixpoint digits_z (s : jsstring) (acc : Z) : option Z :=
  match s with
  | [] => Some acc
  | c :: r =>
      if (48 <=? c) && (c <=? 57)
      then digits_z r (acc * 10 + Z.of_N (c - 48))%Z else None
  end.

Definition string_to_number (s : jsstring) : option Z :=
  match s with
  | [] => Some 0%Z
  | c :: r =>
      if c =? 45 then match r with [] => None | _ => option_map Z.opp (digits_z r 0) end
      else if c =? 43 then match r with [] => None | _ => digits_z r 0 end
      else digits_z s 0
  end.

Definition prim_to_number (p : Prim) : option Z :=
  match p with PNum n => n | PStr s => string_to_number s end.

Definition prim_to_string (p : Prim) : jsstring :=
  match p with
  | PNum (Some z) => number_to_string z
  | PNum None => js "NaN"
  | PStr s => s
  end.

Definition prim_truthy (p : Prim) : bool :=
  match p with
  | PNum (Some z) => negb (z =? 0)%Z
  | PNum None => false
  | PStr s => match s with [] => false | _ => true end
  end.

(** [hiddenBy += 1]: string concatenation on a string, addition on a number. *)
Definition prim_add_one (p : Prim) : Prim :=
  match p with
  | PStr s => PStr (s ++ js "1")
  | PNum n => PNum (option_map (fun z => z + 1)%Z n)
  end.

(** [hiddenBy -= 1]. *)
Definition prim_sub_one (p : Prim) : Prim :=
  PNum (option_map (fun z => z - 1)%Z (prim_to_number p)).

(** [hiddenBy == 0]. *)
Definition prim_loose_eq_zero (p : Prim) : bool :=
  match prim_to_number p with Some z => (z =? 0)%Z | None => false end.

Definition hidden_by : jsstring := js "hidden-by".

(** The body of the [forEach] on one matching chart. *)
Definition update_chart (hide : bool) (chart : Chart) : Chart :=
  let hiddenBy :=
    match getAttribute chart hidden_by with
    | Some ((_ :: _) as s) => PStr s
    | _ => PNum (Some 0%Z)
    end in
  let '(hiddenBy, chart) :=
    if hide then (prim_add_one hiddenBy, mkChart (attrs chart) true)
    else
      let hiddenBy := if prim_truthy hiddenBy then prim_sub_one hiddenBy
                      else PNum (Some 0%Z) in
      (hiddenBy,
       if prim_loose_eq_zero hiddenBy then mkChart (attrs chart) false else chart) in
  setAttribute chart hidden_by (prim_to_string hiddenBy).

(** [setChartHiddenStatus(hide, key, value)] over the document's
    [benchmark-graphs] elements. *)
Definition setChartHiddenStatus (hide : bool) (key value : jsstring)
  (charts : list Chart) : list Chart :=
  map (fun chart =>
         match getAttribute chart key with
         | Some v => if str_eqb v value then update_chart hide chart else chart
         | None => chart
         end) charts.

(** A checkbox [change] event: [checked] is the box's new state. *)
Definition on_checkbox_change (charts : list Chart) (ev : bool * jsstring * jsstring)
  : list Chart :=
  let '(checked, key, value) := ev in
  setChartHiddenStatus (negb checked) key value charts.

(** The [div] that [chartFilteredTraces] creates, with class
    [benchmark-graphs]. *)
Definition chart_element : Chart :=
  mkChart [(js "class", js "benchmark-graphs")] false.

(** A chart element as [chartFilteredTraces] and [addAttributesToChartElement]
    create it for a group key whose names are valid attribute names
    ([addAttributesToChartElement_valid]). *)
Definition new_chart (groupKey : list (jsstring * jsstring)) : Chart :=
  fold_left (fun c kv => setAttribute c (fst kv) (snd kv)) groupKey
    chart_element.



(* ------------------------------------------------------------------ *)
(** ** Schema and groupBy lookup: [retrieveSchema], [retrieveGroupBy] *)

Definition is_object (v : jsval) : bool :=
  match v with JNull | JArr _ | JObj _ => true | _ => false end.

(** [v.hasOwnProperty(k)] on an object or array value. *)
Definition has_own_val (v : jsval) (k : jsstring) : option bool :=
  match v with
  | JObj o => has_own o k
  | JArr l =>
      Some (str_eqb k (js "length") ||
            match array_index k with
            | Some n => (n <? N.of_nat (List.length l))%N
            | None => false
            end)
  | _ => None
  end.

(** [v[k]] for an own property of an object or array value. *)
Definition get_val (v : jsval) (k : jsstring) : jsval :=
  match v with
  | JObj o => get o k
  | JArr l =>
      if str_eqb k (js "length") then JNum (Z.of_nat (List.length l))
      else match array_index k with
           | Some n => nth (N.to_nat n) l JUndef
           | None => JUndef
           end
  | _ => JUndef
  end.

Definition str_array (l : list jsstring) : jsval := JArr (map JStr l).

Definition defaultSchema : list jsstring :=
  [js "name"; js "platform"; js "os"; js "keySize"; js "api"; js "category"].

Definition defaultGroupBy : list jsstring := [js "os"].

(** The shared shape of [retrieveSchema] and [retrieveGroupBy]: the value
    used for the suite and the messages passed to [console.error]. *)
Definition retrieve_field (field : jsstring) (dflt : list jsstring) (msg : jsstring)
  (benchmarkData : obj) (benchSet : jsstring) : option (jsval * list jsstring) :=
  let v := get benchmarkData field in
  let fallback := Some (str_array dflt, [msg ++ js "[" ++ to_string (str_array dflt) ++ js "]"]) in
  if negb (truthy v) || negb (is_object v) then fallback
  else match has_own_val v benchSet with
       | None => None
       | Some false => fallback
       | Some true => Some (get_val v benchSet, [])
       end.

(** [retrieveSchema(benchSet)] on [window.BENCHMARK_DATA]. *)
Definition retrieveSchema (benchmarkData : obj) (benchSet : jsstring)
  : option (jsval * list jsstring) :=
  retrieve_field (js "schema") defaultSchema
    (js "No or invalid schema provided: defaulting to ") benchmarkData benchSet.

(** [retrieveGroupBy(benchSet)] on [window.BENCHMARK_DATA]. *)
Definition retrieveGroupBy (benchmarkData : obj) (benchSet : jsstring)
  : option (jsval * list jsstring) :=
  retrieve_field (js "groupBy") defaultGroupBy
    (js "No or invalid groupBy provided: defaulting to ") benchmarkData benchSet.

(* ------------------------------------------------------------------ *)
(** ** [addBenchmarkToDataJson] *)

(** The members of [Object.prototype], which a plain object inherits. *)
Definition object_prototype_names : list jsstring :=
  [js "constructor"; js "__defineGetter__"; js "__defineSetter__";
   js "hasOwnProperty"; js "__lookupGetter__"; js "__lookupSetter__";
   js "isPrototypeOf"; js "propertyIsEnumerable"; js "toString"; js "valueOf";
   js "__proto__"; js "toLocaleString"].

Record DataJson := mkDataJson {
  lastUpdate : Z;
  repoUrl : jsstring;
  entries : list (jsstring * list Benchmark);
  groupByMap : option (list (jsstring * list jsstring));
  schemaMap : option (list (jsstring * list jsstring)) }.

Fixpoint assoc_get {A} (l : list (jsstring * A)) (k : jsstring) : option A :=
  match l with
  | [] => None
  | (k', v) :: r => if str_eqb k k' then Some v else assoc_get r k
  end.

Fixpoint assoc_define {A} (l : list (jsstring * A)) (k : jsstring) (v : A)
  : list (jsstring * A) :=
  match l with
  | [] => [(k, v)]
  | (k', v') :: r =>
      if str_eqb k k' then (k', v) :: r else (k', v') :: assoc_define r k v
  end.

(** [o[k] = v] on a plain object: [__proto__] changes the prototype, not the
    own properties. *)
Definition assoc_assign {A} (l : list (jsstring * A)) (k : jsstring) (v : A)
  : list (jsstring * A) :=
  if str_eqb k (js "__proto__") then l else assoc_define l k v.

(** The most recent entry whose commit differs: the loop over
    [suites.slice().reverse()]. *)
Fixpoint find_prev (revSuites : list Benchmark) (id : jsstring) : option Benchmark :=
  match revSuites with
  | [] => None
  | e :: r =>
      if negb (str_eqb (commit_id (commit e)) id) then Some e else find_prev r id
  end.

(** [if (maxItems !== null && suites.length > maxItems)
      suites.splice(0, suites.length - maxItems)]. *)
Definition truncate (maxItems : option Z) (suites : list Benchmark) : list Benchmark :=
  match maxItems with
  | Some m =>
      if (m <? Z.of_nat (List.length suites))%Z
      then skipn (Z.to_nat (Z.of_nat (List.length suites) - m)) suites
      else suites
  | None => suites
  end.

(** [addBenchmarkToDataJson(groupBy, schema, benchName, bench, data,
    maxItems)] at time [now]: the returned [prevBench] and the updated
    document; [None] is the TypeError of [suites.slice] when the suite name
    is inherited from [Object.prototype]. *)
Definition addBenchmarkToDataJson (now : Z) (groupBy schema : list jsstring)
  (benchName : jsstring) (bench : Benchmark) (data : DataJson) (maxItems : option Z)
  : option (option Benchmark * DataJson) :=
  let gb := match groupByMap data with Some m => m | None => [] end in
  let sc := match schemaMap data with Some m => m | None => [] end in
  let gb := assoc_assign gb benchName groupBy in
  let sc := assoc_assign sc benchName schema in
  match assoc_get (entries data) benchName with
  | None =>
      if includes object_prototype_names benchName then None
      else Some (None, mkDataJson now (repoUrl data)
                         (assoc_define (entries data) benchName [bench]) (Some gb) (Some sc))
  | Some suites =>
      let prevBench := find_prev (rev suites) (commit_id (commit bench)) in
      let suites := truncate maxItems (suites ++ [bench]) in
      Some (prevBench, mkDataJson now (repoUrl data)
                         (assoc_define (entries data) benchName suites) (Some gb) (Some sc))
  end.

(* ------------------------------------------------------------------ *)
(** ** Specification-side definitions: unit tables, substrings, groups *)

Open Scope Q_scope.

(** The unit table of the spec: prefix [n], [u]/[µ]/[μ], [m], [s] and the
    factor to nanoseconds. *)
Definition spec_prefix_factor (c : N) : option Q :=
  if (c =? 110)%N then Some 1
  else if ((c =? 117) || (c =? 181) || (c =? 956))%N then Some 1000
  else if (c =? 109)%N then Some 1000000
  else if (c =? 115)%N then Some 1000000000
  else None.

(** The display-unit table of the spec: divisor and unit for a maximum. *)
Definition spec_display_unit (m : Q) : Q * jsstring :=
  if negb (Qle_bool m 1000000000) then (1000000000, js "s/iter")
  else if negb (Qle_bool m 1000000) then (1000000, js "ms/iter")
  else if negb (Qle_bool m 1000) then (1000, micro_s_iter)
  else (1, js "ns/iter").

Close Scope Q_scope.


(** [a] occurs in [b] as a substring. *)
Definition contains (b a : jsstring) : Prop := exists p q, b = p ++ a ++ q.

Fixpoint is_prefixb (a b : jsstring) : bool :=
  match a, b with
  | [], _ => true
  | _ :: _, [] => false
  | x :: a', y :: b' => (x =? y)%N && is_prefixb a' b'
  end.

Fixpoint containsb (b a : jsstring) : bool :=
  is_prefixb a b || match b with [] => false | _ :: b' => containsb b' a end.





(** The loaded map [v] (the document's [schema] or [groupBy] value) holds an
    own entry for the suite [B]. *)
Definition entry_present (v : jsval) (B : jsstring) : Prop :=
  truthy v = true /\ is_object v = true /\ has_own_val v B = Some true.

(** [v] is not an object with an own [hasOwnProperty] property. *)
Definition no_own_hasOwnProperty (v : jsval) : Prop :=
  match v with JObj o => own_get o (js "hasOwnProperty") = None | _ => True end.


(** The last [n] items of a list. *)
Definition last_items {A} (n : nat) (l : list A) : list A :=
  skipn (List.length l - n) l.

(* ------------------------------------------------------------------ *)
(** ** Objects built from members; fields of a key *)






Definition is_proto (s : jsstring) : bool := str_eqb s (js "__proto__").


(* ------------------------------------------------------------------ *)
(** ** Command-line side: [parseSchema], [parseGroupBy], [loadBenchmarkResult] *)

(** [s.split(sep)] for a one-code-unit separator: the pieces between the
    separators, [[""]] for the empty string. *)
Fixpoint split_on (sep : N) (s : jsstring) : list jsstring :=
  match s with
  | [] => [[]]
  | c :: r =>
      if c =? sep then [] :: split_on sep r
      else match split_on sep r with
           | x :: xs => (c :: x) :: xs
           | [] => [[c]]
           end
  end.

(** [parseSchema(schema?)] of the command-line script; [None] is
    [undefined]. Its [defaultSchema] is the same list as the renderer's. *)
Definition parseSchema (schema : option jsstring) : list jsstring :=
  match schema with
  | None => defaultSchema
  | Some s =>
      let keys := split_on 44 s in
      match keys with
      | [k] => if str_eqb k [] then defaultSchema else keys
      | _ => keys
      end
  end.

(** [parseGroupBy(groupBy?)]. *)
Definition parseGroupBy (groupBy : option jsstring) : list jsstring :=
  match groupBy with
  | None => [js "os"]
  | Some s =>
      let keys := split_on 44 s in
      match keys with
      | [k] => if str_eqb k [] then [js "os"] else keys
      | _ => keys
      end
  end.

(** The body of [schema.forEach] in [loadBenchmarkResult] on one result. *)
Definition normalize_step (result : obj) (key : jsstring) : obj :=
  let result :=
    if includes (map fst result) key then result else assign result key JUndef in
  let result :=
    if truthy (get result (js "range")) then result
    else assign result (js "range") JUndef in
  if truthy (get result (js "extra")) then result
  else assign result (js "extra") JUndef.

Definition normalize_result (schema : list jsstring) (result : obj) : obj :=
  fold_left normalize_step schema result.

(** [loadBenchmarkResult(commit, bigger_is_better, filePath, schema)] on the
    parsed results of the file, at time [now] ([Date.now()]). *)
Definition loadBenchmarkResult (c : Commit) (bigger : bool) (results : list obj)
  (schema : list jsstring) (now : Z) : Benchmark :=
  mkBenchmark c now bigger (map (normalize_result schema) results).

(** The fields of the metadata file the script reads. *)
Record Metadata := mkMetadata {
  committer : jsstring;
  commitHash : jsstring;
  commitMessage : jsstring;
  commitUrl : jsstring;
  commitTimestamp : jsstring }.

Definition commit_of_metadata (m : Metadata) : Commit :=
  mkCommit (commitHash m) (commitMessage m) (commitUrl m).

(** The [bigger-is-better] argument; [None] is [abort]. *)
Definition parse_bigger_is_better (raw : jsstring) : option bool :=
  if str_eqb raw (js "true") then Some true
  else if str_eqb raw (js "false") then Some false
  else None.

(** The top level of the script on its arguments, the parsed metadata, new
    results and baseline document, with the two [Date.now()] readings: the
    document it writes to standard output, [None] when it aborts or throws. *)
Definition update_main (args : list jsstring) (metadata : Metadata)
  (results : list obj) (data : DataJson) (now1 now2 : Z) : option DataJson :=
  if negb (List.length args =? 7)%nat then None
  else
    match args with
    | [name; schema_raw; groupBy_raw; bigger_raw; _; _; _] =>
        match parse_bigger_is_better bigger_raw with
        | None => None
        | Some bigger =>
            let schema := parseSchema (Some schema_raw) in
            let groupBy := parseGroupBy (Some groupBy_raw) in
            let bench := loadBenchmarkResult (commit_of_metadata metadata) bigger
                           results schema now1 in
            match addBenchmarkToDataJson now2 groupBy schema name bench data None with
            | Some (_, d) => Some d
            | None => None
            end
        end
    | _ => None
    end.

(* ------------------------------------------------------------------ *)
(** ** Rendering a benchmark set: [renderAllCharts] and its helpers *)





















(** What [loadBenchmarkResult] leaves at [range] and [extra]. *)
Definition falsy_to_undef (r : obj) (f : jsstring) : option jsval :=
  if truthy (get r f) then own_get r f else Some JUndef.

(** The state of a chart matching the filter [key = value], for one
    checkbox: visible with no count or ["0"], or hidden with ["1"] or
    ["01"]. *)
Definition toggle_state (key value : jsstring) (hidden : bool) (c : Chart) : Prop :=
  getAttribute c key = Some value /\ display_none c = hidden /\
  (if hidden
   then getAttribute c hidden_by = Some (js "1") \/ getAttribute c hidden_by = Some (js "01")
   else getAttribute c hidden_by = None \/ getAttribute c hidden_by = Some (js "0")).

(* ------------------------------------------------------------------ *)
(** ** Lemmas: string equality *)

Lemma str_eqb_eq : forall a b, str_eqb a b = true <-> a = b.
Proof.
  induction a as [|x a IH]; destruct b as [|y b]; simpl; split; intro H;
    try discriminate; try reflexivity.
  - apply andb_prop in H as [H1 H2]. apply N.eqb_eq in H1.
    apply IH in H2. subst. reflexivity.
  - injection H as -> ->. rewrite N.eqb_refl. simpl. apply IH. reflexivity.
Qed.

Lemma str_eqb_refl : forall a, str_eqb a a = true.
Proof. intro a. apply str_eqb_eq. reflexivity. Qed.

Lemma str_eqb_neq : forall a b, str_eqb a b = false <-> a <> b.
Proof.
  intros a b. rewrite <- str_eqb_eq. destruct (str_eqb a b); split; congruence.
Qed.

(* ------------------------------------------------------------------ *)
(** ** Examples: the key codec *)

Example buildKey_ex1 :
  buildKey [(js "name", JStr (js "enc")); (js "keySize", JNum 512)]
           [js "name"; js "os"; js "keySize"]
  = Some (jsq "{'name':'enc','os':'-','keySize':'512'}").
Proof. vm_compute. reflexivity. Qed.

Example buildKey_ex_order :
  buildKey [(js "b", JStr (jsq "x'y"))] [js "b"; js "7"; js "0"]
  = Some (jsq "{'0':'-','7':'-','b':'x\'y'}").
Proof. vm_compute. reflexivity. Qed.

Example parseKey_ex1 :
  parseKey (jsq "{'0':'-','7':'-','b':'x\'y'}") [js "b"; js "c"]
  = Some [(js "0", JStr dash); (js "7", JStr dash);
          (js "b", JStr (jsq "x'y")); (js "c", JStr dash)].
Proof. vm_compute. reflexivity. Qed.

(* ------------------------------------------------------------------ *)
(** ** Lemmas: JSON string literals round-trip *)







(* ------------------------------------------------------------------ *)
(** ** Lemmas: plain objects *)

Lemma own_get_define : forall o k v k',
  own_get (define o k v) k' = if str_eqb k' k then Some v else own_get o k'.
Proof.
  induction o as [|[k0 v0] r IH]; intros k v k'; simpl.
  - destruct (str_eqb k' k); reflexivity.
  - destruct (str_eqb k k0) eqn:E.
    + apply str_eqb_eq in E. subst k0. simpl.
      destruct (str_eqb k' k); reflexivity.
    + simpl. rewrite IH. destruct (str_eqb k' k0) eqn:E1; [|reflexivity].
      apply str_eqb_eq in E1. subst k'.
      destruct (str_eqb k0 k) eqn:E2; [|reflexivity].
      apply str_eqb_eq in E2. subst. rewrite str_eqb_refl in E. discriminate.
Qed.

Lemma own_get_some_in : forall o k v, own_get o k = Some v -> In (k, v) o.
Proof.
  induction o as [|[k0 v0] r IH]; simpl; intros k v H; [discriminate|].
  destruct (str_eqb k k0) eqn:E.
  - apply str_eqb_eq in E. injection H as <-. subst. left. reflexivity.
  - right. apply IH. exact H.
Qed.

Lemma own_get_none_notin : forall o k, own_get o k = None -> ~ In k (map fst o).
Proof.
  induction o as [|[k0 v0] r IH]; simpl; intros k H; [tauto|].
  destruct (str_eqb k k0) eqn:E; [discriminate|].
  apply str_eqb_neq in E. intros [Heq|Hin]; [congruence|]. exact (IH k H Hin).
Qed.








(* ------------------------------------------------------------------ *)
(** ** Lemmas: [JSON.parse] inverts [JSON.stringify] on flat string objects *)








(* ------------------------------------------------------------------ *)
(** ** Lemmas: the key object built by [buildKey] *)



Lemma own_get_assign : forall o k v k',
  own_get (assign o k v) k' =
  if negb (is_proto k) && str_eqb k' k then Some v else own_get o k'.
Proof.
  intros o k v k'. unfold assign, is_proto.
  destruct (str_eqb k (js "__proto__")); simpl; [reflexivity|].
  apply own_get_define.
Qed.










Lemma existsb_in : forall s F, In s F -> existsb (str_eqb s) F = true.
Proof.
  intros s F Hs. apply existsb_exists. exists s. split; [exact Hs|].
  apply str_eqb_refl.
Qed.



(* ------------------------------------------------------------------ *)
(** ** Lemmas: [Math.max] and the display unit *)

Open Scope Q_scope.

Lemma js_max2_cases : forall a b,
  (js_max2 a b = a \/ js_max2 a b = b) /\
  (forall x, a = Some x -> exists y, js_max2 a b = Some y /\ x <= y) /\
  (forall x, b = Some x -> exists y, js_max2 a b = Some y /\ x <= y).
Proof.
  intros [x|] [y|]; simpl.
  - destruct (Qle_bool x y) eqn:E.
    + apply Qle_bool_iff in E. split; [auto|]. split; intros z Hz; injection Hz as <-;
        eexists; (split; [reflexivity| auto using Qle_refl]).
    + assert (Hyx : y <= x).
      { apply Qlt_le_weak. apply Qnot_le_lt. intro H. apply Qle_bool_iff in H.
        congruence. }
      split; [auto|]. split; intros z Hz; injection Hz as <-;
        eexists; (split; [reflexivity| auto using Qle_refl]).
  - split; [auto|]. split; intros z Hz; [injection Hz as <-|discriminate];
      eexists; (split; [reflexivity|apply Qle_refl]).
  - split; [auto|]. split; intros z Hz; [discriminate|injection Hz as <-];
      eexists; (split; [reflexivity|apply Qle_refl]).
  - split; [auto|]. split; intros; discriminate.
Qed.

(** The result of [Math.max] is one of the finite arguments (or the seed),
    and bounds all of them. *)
Lemma js_max_fold_spec : forall xs acc x,
  fold_left js_max2 xs acc = Some x ->
  (acc = Some x \/ In (Some x) xs) /\
  (forall y, (acc = Some y \/ In (Some y) xs) -> y <= x).
Proof.
  induction xs as [|a xs IH]; simpl; intros acc x H.
  - subst acc. split; [auto|]. intros y [Hy|[]]. injection Hy as ->. apply Qle_refl.
  - destruct (IH _ _ H) as [Hin Hub].
    destruct (js_max2_cases acc a) as [Hc [Hacc Ha]].
    split.
    + destruct Hin as [Hin|Hin]; [|auto].
      destruct Hc as [Hc|Hc]; rewrite Hc in Hin; auto.
    + intros y [Hy|[Hy|Hy]].
      * destruct (Hacc _ Hy) as [z [Hz Hle]].
        eapply Qle_trans; [exact Hle|]. apply Hub. auto.
      * destruct (Ha _ Hy) as [z [Hz Hle]].
        eapply Qle_trans; [exact Hle|]. apply Hub. auto.
      * apply Hub. auto.
Qed.

Lemma js_max_fold_none : forall xs acc y,
  (acc = Some y \/ In (Some y) xs) -> exists x, fold_left js_max2 xs acc = Some x.
Proof.
  induction xs as [|a xs IH]; simpl; intros acc y H.
  - destruct H as [->|[]]. eauto.
  - destruct H as [H|[H|H]].
    + destruct (js_max2_cases acc a) as [_ [Hacc _]].
      destruct (Hacc _ H) as [z [Hz _]]. eapply IH. left. exact Hz.
    + destruct (js_max2_cases acc a) as [_ [_ Ha]].
      destruct (Ha _ H) as [z [Hz _]]. eapply IH. left. exact Hz.
    + eapply IH. right. exact H.
Qed.

(** The maximum of the per-trace maxima is a value of some trace and bounds
    every value. *)
Lemma nested_max_spec : forall (dataNs : list (list Q)) m,
  In m (List.concat dataNs) ->
  exists x, js_max (map (fun d => js_max (map Some d)) dataNs) = Some x /\
    In x (List.concat dataNs) /\ forall v, In v (List.concat dataNs) -> v <= x.
Proof.
  intros dataNs m Hm.
  apply in_concat in Hm. destruct Hm as [d [Hd Hmd]].
  assert (Hd' : exists xd, js_max (map Some d) = Some xd).
  { unfold js_max. eapply js_max_fold_none. right. apply in_map. exact Hmd. }
  destruct Hd' as [xd Hxd].
  destruct (js_max_fold_none (map (fun d => js_max (map Some d)) dataNs) None xd)
    as [x Hx].
  { right. rewrite <- Hxd. apply (in_map (fun d => js_max (map Some d))). exact Hd. }
  exists x. unfold js_max at 1. rewrite Hx.
  destruct (js_max_fold_spec _ _ _ Hx) as [[Hn|Hin] Hub]; [discriminate|].
  split; [reflexivity|]. split.
  - apply in_map_iff in Hin. destruct Hin as [d' [Hd'x Hd'in]].
    destruct (js_max_fold_spec _ _ _ Hd'x) as [[Hn|Hin'] _]; [discriminate|].
    apply in_map_iff in Hin'. destruct Hin' as [v [Hv Hvin]]. injection Hv as ->.
    apply in_concat. eauto.
  - intros v Hv. apply in_concat in Hv. destruct Hv as [d' [Hd'in Hvd']].
    destruct (js_max_fold_none (map Some d') None v) as [y Hy].
    { right. apply in_map. exact Hvd'. }
    destruct (js_max_fold_spec _ _ _ Hy) as [_ Hub'].
    eapply Qle_trans; [apply Hub'; right; apply in_map; exact Hvd'|].
    apply Hub. right. rewrite <- Hy.
    apply (in_map (fun d => js_max (map Some d))). exact Hd'in.
Qed.

Lemma Qle_bool_compat : forall a b c, a == b -> Qle_bool a c = Qle_bool b c.
Proof.
  intros a b c H. destruct (Qle_bool a c) eqn:E1; destruct (Qle_bool b c) eqn:E2;
    auto.
  - apply Qle_bool_iff in E1. rewrite H in E1. apply Qle_bool_iff in E1. congruence.
  - apply Qle_bool_iff in E2. rewrite <- H in E2. apply Qle_bool_iff in E2. congruence.
Qed.

Lemma best_unit_spec : forall x m, x == m -> best_unit (Some x) = spec_display_unit m.
Proof.
  intros x m H. unfold best_unit, spec_display_unit, gtq.
  rewrite !(Qle_bool_compat x m _ H). reflexivity.
Qed.

Close Scope Q_scope.

(* ------------------------------------------------------------------ *)
(** ** Lemmas: substrings *)

Lemma is_prefixb_app : forall a q, is_prefixb a (a ++ q) = true.
Proof.
  induction a as [|x a IH]; simpl; intros q; [reflexivity|].
  rewrite N.eqb_refl, IH. reflexivity.
Qed.

Lemma containsb_complete : forall b a, contains b a -> containsb b a = true.
Proof.
  intros b a [p [q ->]]. induction p as [|x p IH]; simpl.
  - destruct a; simpl; [destruct q; reflexivity|].
    rewrite N.eqb_refl, is_prefixb_app. reflexivity.
  - rewrite IH. apply orb_true_r.
Qed.

Lemma contains_refl : forall a, contains a a.
Proof. intros a. exists [], []. rewrite app_nil_r. reflexivity. Qed.

Lemma contains_app_l : forall b c a, contains b a -> contains (b ++ c) a.
Proof.
  intros b c a [p [q ->]]. exists p, (q ++ c). rewrite <- !app_assoc. reflexivity.
Qed.

Lemma contains_app_r : forall b c a, contains c a -> contains (b ++ c) a.
Proof.
  intros b c a [p [q ->]]. exists (b ++ p), q. rewrite <- !app_assoc. reflexivity.
Qed.

(** Finds [a] among the pieces of a concatenation. *)
Ltac find_piece :=
  first [ apply contains_refl
        | apply contains_app_r; find_piece
        | apply contains_app_l; find_piece ].

(* ------------------------------------------------------------------ *)
(** ** Lemmas: [Object.groupBy] and [separateAllTraces] *)

Section GroupBy.
Variable A : Type.
Variable keyOf : A -> option jsstring.







End GroupBy.



(* ------------------------------------------------------------------ *)
(** ** Lemmas: [retrieveSchema] and [retrieveGroupBy] *)

Lemma retrieve_field_spec : forall field dflt msg D B,
  no_own_hasOwnProperty (get D field) ->
  (entry_present (get D field) B ->
     retrieve_field field dflt msg D B = Some (get_val (get D field) B, [])) /\
  (~ entry_present (get D field) B ->
     exists m, retrieve_field field dflt msg D B = Some (str_array dflt, [m])).
Proof.
  intros field dflt msg D B Hh. unfold retrieve_field, entry_present. cbv zeta.
  split.
  - intros [Ht [Ho Hown]]. rewrite Ht, Ho. simpl. rewrite Hown. reflexivity.
  - intros Hn. destruct (truthy (get D field)) eqn:Ht; simpl; [|eexists; reflexivity].
    destruct (is_object (get D field)) eqn:Ho; simpl; [|eexists; reflexivity].
    destruct (has_own_val (get D field) B) as [[|]|] eqn:Hown.
    + exfalso. apply Hn. auto.
    + eexists. reflexivity.
    + exfalso. destruct (get D field); simpl in *; try discriminate.
      unfold has_own in Hown. rewrite Hh in Hown. discriminate.
Qed.

(* ------------------------------------------------------------------ *)
(** ** Lemmas: [addBenchmarkToDataJson] *)

Lemma assoc_get_define : forall {A} (l : list (jsstring * A)) k v k',
  assoc_get (assoc_define l k v) k' = if str_eqb k' k then Some v else assoc_get l k'.
Proof.
  intros A l k v k'. induction l as [|[k0 v0] r IH]; simpl.
  - destruct (str_eqb k' k); reflexivity.
  - destruct (str_eqb k k0) eqn:E.
    + apply str_eqb_eq in E. subst k0. simpl. destruct (str_eqb k' k); reflexivity.
    + simpl. rewrite IH. destruct (str_eqb k' k) eqn:E1; [|reflexivity].
      apply str_eqb_eq in E1. subst k'. rewrite E. reflexivity.
Qed.

Lemma truncate_last_items : forall m (l : list Benchmark),
  truncate (Some m) l = last_items (Z.to_nat m) l.
Proof.
  intros m l. unfold truncate, last_items.
  destruct (m <? Z.of_nat (List.length l))%Z eqn:E.
  - apply Z.ltb_lt in E. destruct (Z.le_gt_cases 0 m) as [Hm|Hm].
    + f_equal. lia.
    + rewrite !skipn_all2; [reflexivity|lia|lia].
  - apply Z.ltb_ge in E. replace (List.length l - Z.to_nat m)%nat with 0%nat by lia.
    reflexivity.
Qed.

Lemma find_prev_spec : forall r id,
  (find_prev r id = None -> Forall (fun e => commit_id (commit e) = id) r) /\
  (forall e, find_prev r id = Some e ->
     exists b a, r = b ++ e :: a /\ Forall (fun e => commit_id (commit e) = id) b /\
       commit_id (commit e) <> id).
Proof.
  induction r as [|e0 r IH]; intros id; simpl.
  - split; [constructor|discriminate].
  - destruct (str_eqb (commit_id (commit e0)) id) eqn:E; simpl.
    + apply str_eqb_eq in E. destruct (IH id) as [H1 H2]. split.
      * intros H. constructor; auto.
      * intros e He. destruct (H2 e He) as [b [a [-> [Hb He']]]].
        exists (e0 :: b), a. split; [reflexivity|]. split; [constructor; auto|exact He'].
    + apply str_eqb_neq in E. split; [discriminate|].
      intros e He. injection He as <-. exists [], r. auto.
Qed.

(* ------------------------------------------------------------------ *)
(** ** Lemmas: splitting and joining at commas *)

Lemma split_on_not_nil : forall sep s, split_on sep s <> [].
Proof.
  intros sep [|c r]; simpl; [discriminate|].
  destruct (c =? sep); [discriminate|]. destruct (split_on sep r); discriminate.
Qed.

Lemma join_cons_head : forall sep c x xs, join sep ((c :: x) :: xs) = c :: join sep (x :: xs).
Proof. intros sep c x [|y ys]; reflexivity. Qed.

Lemma join_split : forall sep s, join [sep] (split_on sep s) = s.
Proof.
  intros sep. induction s as [|c r IH]; [reflexivity|]. simpl.
  destruct (c =? sep) eqn:E.
  - apply N.eqb_eq in E. subst c. pose proof (split_on_not_nil sep r) as Hn.
    destruct (split_on sep r) as [|x xs]; [congruence|]. simpl in *. rewrite IH. reflexivity.
  - destruct (split_on sep r) as [|x xs] eqn:Es.
    + exfalso. exact (split_on_not_nil sep r Es).
    + rewrite join_cons_head, IH. reflexivity.
Qed.

Lemma split_no_sep : forall sep s, Forall (fun k => ~ In sep k) (split_on sep s).
Proof.
  intros sep. induction s as [|c r IH]; simpl; [constructor; [intros []|constructor]|].
  destruct (c =? sep) eqn:E.
  - constructor; [intros []|exact IH].
  - destruct (split_on sep r) as [|x xs].
    + constructor; [|constructor]. intros [H|[]]. apply N.eqb_neq in E. congruence.
    + inversion IH as [|? ? Hx Hxs]; subst.
      constructor; [|exact Hxs]. intros [H|H]; [apply N.eqb_neq in E; congruence|].
      exact (Hx H).
Qed.

Lemma split_app_sep : forall sep x t, ~ In sep x ->
  split_on sep (x ++ sep :: t) = x :: split_on sep t.
Proof.
  intros sep w. induction w as [|c w IH]; intros t Hx; simpl.
  - rewrite N.eqb_refl. reflexivity.
  - destruct (c =? sep) eqn:E; [apply N.eqb_eq in E; subst; exfalso; apply Hx; left; reflexivity|].
    rewrite IH by (intro H; apply Hx; right; exact H). reflexivity.
Qed.

Lemma split_single : forall sep x, ~ In sep x -> split_on sep x = [x].
Proof.
  intros sep w. induction w as [|c w IH]; intros Hx; simpl; [reflexivity|].
  destruct (c =? sep) eqn:E; [apply N.eqb_eq in E; subst; exfalso; apply Hx; left; reflexivity|].
  rewrite IH by (intro H; apply Hx; right; exact H). reflexivity.
Qed.

Lemma split_join : forall sep l, l <> [] -> Forall (fun k => ~ In sep k) l ->
  split_on sep (join [sep] l) = l.
Proof.
  intros sep. induction l as [|x l IH]; intros Hne Hall; [congruence|].
  inversion Hall as [|? ? Hx Hl]; subst.
  destruct l as [|y l'].
  - simpl. apply split_single. exact Hx.
  - change (join [sep] (x :: y :: l')) with (x ++ sep :: join [sep] (y :: l')).
    rewrite split_app_sep by exact Hx. rewrite IH by (discriminate || exact Hl).
    reflexivity.
Qed.

Lemma split_on_empty_piece : forall sep s k, split_on sep s = [k] -> k = [] -> s = [].
Proof.
  intros sep s k H ->. rewrite <- (join_split sep s), H. reflexivity.
Qed.

(* ------------------------------------------------------------------ *)
(** ** Lemmas: [loadBenchmarkResult] *)

Lemma own_get_in_map_fst : forall o k, In k (map fst o) -> own_get o k <> None.
Proof.
  intros o k Hin H. exact (own_get_none_notin o k H Hin).
Qed.

Lemma assign_keeps_some : forall o k v k', own_get o k' <> None ->
  own_get (assign o k v) k' <> None.
Proof.
  intros o k v k' H. rewrite own_get_assign.
  destruct (negb (is_proto k) && str_eqb k' k); [discriminate|exact H].
Qed.

Lemma assign_other : forall o k v k', k' <> k -> own_get (assign o k v) k' = own_get o k'.
Proof.
  intros o k v k' H. rewrite own_get_assign.
  apply str_eqb_neq in H. rewrite H, andb_false_r. reflexivity.
Qed.

Lemma assign_same : forall o k v, is_proto k = false -> own_get (assign o k v) k = Some v.
Proof. intros o k v H. rewrite own_get_assign, H, str_eqb_refl. reflexivity. Qed.

Lemma includes_map_fst : forall o k,
  includes (map fst o) k = false -> own_get o k = None.
Proof.
  intros o k H. destruct (own_get o k) as [v|] eqn:E; [|reflexivity].
  apply own_get_some_in in E. apply (in_map fst) in E. simpl in E.
  unfold includes in H. rewrite existsb_in in H by exact E. discriminate.
Qed.

Lemma range_extra_neq : js "range" <> js "extra".
Proof. discriminate. Qed.

Lemma range_not_proto : is_proto (js "range") = false.
Proof. reflexivity. Qed.

Lemma extra_not_proto : is_proto (js "extra") = false.
Proof. reflexivity. Qed.

(** The first assignment of a step: only the key itself, when it is missing. *)
Lemma step_first : forall r key k,
  own_get (if includes (map fst r) key then r else assign r key JUndef) k =
  if includes (map fst r) key then own_get r k
  else if negb (is_proto key) && str_eqb k key then Some JUndef else own_get r k.
Proof.
  intros r key k. destruct (includes (map fst r) key); [reflexivity|].
  apply own_get_assign.
Qed.

(** Away from [range] and [extra], a step is its first assignment. *)
Lemma step_other : forall r key k, k <> js "range" -> k <> js "extra" ->
  own_get (normalize_step r key) k =
  own_get (if includes (map fst r) key then r else assign r key JUndef) k.
Proof.
  intros r key k Er Ee. unfold normalize_step.
  set (r1 := if includes (map fst r) key then r else assign r key JUndef).
  set (r2 := if truthy (get r1 (js "range")) then r1 else assign r1 (js "range") JUndef).
  assert (H2 : own_get r2 k = own_get r1 k)
    by (unfold r2; destruct (truthy (get r1 (js "range"))); [reflexivity|apply assign_other; exact Er]).
  destruct (truthy (get r2 (js "extra"))); [exact H2|].
  rewrite assign_other by exact Ee. exact H2.
Qed.

(** What a step leaves at a present field other than [range] and [extra]. *)
Lemma step_keeps : forall r key k v, own_get r k = Some v ->
  k <> js "range" -> k <> js "extra" -> own_get (normalize_step r key) k = Some v.
Proof.
  intros r key k v Hk Hr He. rewrite step_other, step_first by assumption.
  destruct (includes (map fst r) key) eqn:Ei; [exact Hk|].
  destruct (negb (is_proto key) && str_eqb k key) eqn:Ek; [|exact Hk].
  apply andb_prop in Ek as [_ Ek]. apply str_eqb_eq in Ek. subst key.
  rewrite (includes_map_fst r k Ei) in Hk. discriminate.
Qed.

(** After one step, [range] and [extra] hold their value when it is truthy
    and [undefined] otherwise. *)
Lemma step_range_extra : forall r key,
  own_get (normalize_step r key) (js "range") = falsy_to_undef r (js "range") /\
  own_get (normalize_step r key) (js "extra") = falsy_to_undef r (js "extra").
Proof.
  intros r key. unfold normalize_step, falsy_to_undef.
  set (r1 := if includes (map fst r) key then r else assign r key JUndef).
  assert (H1 : forall f, truthy (get r f) = true -> own_get r1 f = own_get r f).
  { intros f Ht. unfold r1. rewrite step_first.
    destruct (includes (map fst r) key) eqn:Ei; [reflexivity|].
    destruct (negb (is_proto key) && str_eqb f key) eqn:Ek; [|reflexivity].
    apply andb_prop in Ek as [_ Ek]. apply str_eqb_eq in Ek. subst key.
    unfold get in Ht. rewrite (includes_map_fst r f Ei) in Ht. discriminate. }
  assert (H2 : forall f, truthy (get r f) = false -> truthy (get r1 f) = false).
  { intros f Ht. unfold r1. unfold get at 1. rewrite step_first.
    destruct (includes (map fst r) key); [exact Ht|].
    destruct (negb (is_proto key) && str_eqb f key); [reflexivity|exact Ht]. }
  set (r2 := if truthy (get r1 (js "range")) then r1
             else assign r1 (js "range") JUndef).
  assert (Hr2 : own_get r2 (js "range") =
                if truthy (get r (js "range")) then own_get r (js "range") else Some JUndef).
  { unfold r2. destruct (truthy (get r (js "range"))) eqn:Et.
    - assert (Hg : get r1 (js "range") = get r (js "range"))
        by (unfold get; rewrite (H1 _ Et); reflexivity).
      rewrite Hg, Et. apply H1. exact Et.
    - rewrite (H2 _ Et). apply assign_same. reflexivity. }
  assert (H12 : own_get r2 (js "extra") = own_get r1 (js "extra")).
  { unfold r2. destruct (truthy (get r1 (js "range"))); [reflexivity|].
    apply assign_other. discriminate. }
  assert (He2 : truthy (get r (js "extra")) = true -> own_get r2 (js "extra") = own_get r (js "extra")).
  { intro Et. rewrite H12. apply H1. exact Et. }
  assert (He2' : truthy (get r (js "extra")) = false -> truthy (get r2 (js "extra")) = false).
  { intro Et. unfold get at 1. rewrite H12. apply H2. exact Et. }
  split.
  - destruct (truthy (get r2 (js "extra"))); [exact Hr2|].
    rewrite assign_other by discriminate. exact Hr2.
  - destruct (truthy (get r (js "extra"))) eqn:Et.
    + assert (Hg : get r2 (js "extra") = get r (js "extra"))
        by (unfold get; rewrite (He2 eq_refl); reflexivity).
      rewrite Hg, Et. apply He2. reflexivity.
    + rewrite (He2' eq_refl). apply assign_same. reflexivity.
Qed.

Lemma falsy_to_undef_step : forall r key f, f = js "range" \/ f = js "extra" ->
  falsy_to_undef (normalize_step r key) f = falsy_to_undef r f.
Proof.
  intros r key f Hf.
  assert (H : own_get (normalize_step r key) f = falsy_to_undef r f)
    by (destruct (step_range_extra r key); destruct Hf; subst; assumption).
  unfold falsy_to_undef at 1. unfold get. rewrite H.
  unfold falsy_to_undef. destruct (truthy (get r f)) eqn:Et; [|reflexivity].
  unfold get in Et. destruct (own_get r f); [rewrite Et; reflexivity|discriminate].
Qed.

Lemma fold_range_extra : forall l r f, l <> [] -> f = js "range" \/ f = js "extra" ->
  own_get (normalize_result l r) f = falsy_to_undef r f.
Proof.
  unfold normalize_result.
  induction l as [|key l IH]; intros r f Hne Hf; [congruence|]. simpl.
  destruct l as [|key2 l'].
  - simpl. destruct (step_range_extra r key); destruct Hf; subst; assumption.
  - rewrite IH by (discriminate || exact Hf). apply falsy_to_undef_step. exact Hf.
Qed.

Lemma fold_keeps : forall l r k v, own_get r k = Some v ->
  k <> js "range" -> k <> js "extra" -> own_get (normalize_result l r) k = Some v.
Proof.
  unfold normalize_result.
  induction l as [|key l IH]; intros r k v Hk Hr He; simpl; [exact Hk|].
  apply IH; [apply step_keeps|..]; assumption.
Qed.

Lemma step_present_first : forall r key k,
  own_get (if includes (map fst r) key then r else assign r key JUndef) k <> None ->
  own_get (normalize_step r key) k <> None.
Proof.
  intros r key k H. unfold normalize_step.
  set (r1 := if includes (map fst r) key then r else assign r key JUndef) in *.
  set (r2 := if truthy (get r1 (js "range")) then r1 else assign r1 (js "range") JUndef).
  assert (H2 : own_get r2 k <> None)
    by (unfold r2; destruct (truthy (get r1 (js "range"))); [exact H|apply assign_keeps_some; exact H]).
  destruct (truthy (get r2 (js "extra"))); [exact H2|apply assign_keeps_some; exact H2].
Qed.

Lemma step_present : forall r key k, own_get r k <> None -> own_get (normalize_step r key) k <> None.
Proof.
  intros r key k H. apply step_present_first.
  destruct (includes (map fst r) key); [exact H|apply assign_keeps_some; exact H].
Qed.

Lemma step_adds_key : forall r key, is_proto key = false ->
  own_get (normalize_step r key) key <> None.
Proof.
  intros r key Hp. apply step_present_first.
  destruct (includes (map fst r) key) eqn:Ei.
  - apply own_get_in_map_fst. unfold includes in Ei. apply existsb_exists in Ei.
    destruct Ei as [w [Hw Hwe]]. apply str_eqb_eq in Hwe. subst. exact Hw.
  - rewrite assign_same by exact Hp. discriminate.
Qed.

Lemma fold_present : forall l r k, own_get r k <> None -> own_get (normalize_result l r) k <> None.
Proof.
  unfold normalize_result.
  induction l as [|key l IH]; intros r k H; simpl; [exact H|].
  apply IH. apply step_present. exact H.
Qed.

Lemma fold_adds_schema : forall l r k, In k l -> is_proto k = false ->
  own_get (normalize_result l r) k <> None.
Proof.
  unfold normalize_result.
  induction l as [|key l IH]; intros r k Hin Hp; simpl; [contradiction|].
  destruct Hin as [<-|Hin].
  - apply fold_present. apply step_adds_key. exact Hp.
  - apply IH; assumption.
Qed.

(** A property the step creates is a missing schema field, [range] or
    [extra], valued [undefined]. *)
Lemma step_new : forall r key k,
  (own_get r k = None \/ (own_get r k = Some JUndef /\
                          (k = key \/ k = js "range" \/ k = js "extra"))) ->
  own_get (normalize_step r key) k = None \/
  (own_get (normalize_step r key) k = Some JUndef /\
   (k = key \/ k = js "range" \/ k = js "extra")).
Proof.
  intros r key k H.
  destruct (str_eqb k (js "range")) eqn:Er.
  { apply str_eqb_eq in Er. subst k. right. split; [|auto].
    rewrite (proj1 (step_range_extra r key)). unfold falsy_to_undef, get.
    destruct H as [H|[H _]]; rewrite H; reflexivity. }
  destruct (str_eqb k (js "extra")) eqn:Ee.
  { apply str_eqb_eq in Ee. subst k. right. split; [|auto].
    rewrite (proj2 (step_range_extra r key)). unfold falsy_to_undef, get.
    destruct H as [H|[H _]]; rewrite H; reflexivity. }
  apply str_eqb_neq in Er. apply str_eqb_neq in Ee.
  rewrite step_other, step_first by assumption.
  destruct (includes (map fst r) key); [destruct H as [H|[H1 H2]]; auto|].
  destruct (negb (is_proto key) && str_eqb k key) eqn:Ek.
  - apply andb_prop in Ek as [_ Ek]. apply str_eqb_eq in Ek. right. auto.
  - destruct H as [H|[H1 H2]]; auto.
Qed.

Lemma fold_new : forall l r k, own_get r k = None ->
  own_get (normalize_result l r) k = None \/
  (own_get (normalize_result l r) k = Some JUndef /\
   (In k l \/ k = js "range" \/ k = js "extra")).
Proof.
  unfold normalize_result.
  intros l. induction l as [|key l IH] using rev_ind; intros r k H; simpl; [auto|].
  rewrite fold_left_app. simpl.
  destruct (IH r k H) as [H1|[H1 H2]].
  - destruct (step_new (fold_left normalize_step l r) key k (or_introl H1))
      as [H3|[H3 H4]]; [auto|]. right. split; [exact H3|].
    destruct H4 as [->|H4]; [left; apply in_or_app; simpl; auto|auto].
  - right.
    destruct (str_eqb k (js "range")) eqn:Er; [|destruct (str_eqb k (js "extra")) eqn:Ee].
    + apply str_eqb_eq in Er. subst k. split; [|auto].
      rewrite (proj1 (step_range_extra _ key)). unfold falsy_to_undef, get.
      rewrite H1. reflexivity.
    + apply str_eqb_eq in Ee. subst k. split; [|auto].
      rewrite (proj2 (step_range_extra _ key)). unfold falsy_to_undef, get.
      rewrite H1. reflexivity.
    + apply str_eqb_neq in Er. apply str_eqb_neq in Ee.
      split; [apply step_keeps; assumption|].
      destruct H2 as [H2|H2]; [left; apply in_or_app; auto|auto].
Qed.

(* ------------------------------------------------------------------ *)
(** ** Lemmas: the maps of [addBenchmarkToDataJson] and the entry point *)

Lemma assoc_get_assign : forall {A} (l : list (jsstring * A)) k v k',
  assoc_get (assoc_assign l k v) k' =
  if is_proto k then assoc_get l k'
  else if str_eqb k' k then Some v else assoc_get l k'.
Proof.
  intros A l k v k'. unfold assoc_assign, is_proto.
  destruct (str_eqb k (js "__proto__")); [reflexivity|]. apply assoc_get_define.
Qed.

Lemma add_fields : forall now groupBy schema name bench data mx prev d,
  addBenchmarkToDataJson now groupBy schema name bench data mx = Some (prev, d) ->
  lastUpdate d = now /\ repoUrl d = repoUrl data /\
  groupByMap d = Some (assoc_assign (match groupByMap data with Some m => m | None => [] end)
                         name groupBy) /\
  schemaMap d = Some (assoc_assign (match schemaMap data with Some m => m | None => [] end)
                        name schema).
Proof.
  intros now groupBy schema name bench data mx prev d H.
  unfold addBenchmarkToDataJson in H.
  destruct (assoc_get (entries data) name).
  - inversion H; subst. simpl. auto.
  - destruct (includes object_prototype_names name); [discriminate|].
    inversion H; subst. simpl. auto.
Qed.

Lemma add_succeeds : forall now groupBy schema name bench data mx,
  ~ In name object_prototype_names ->
  exists prev d, addBenchmarkToDataJson now groupBy schema name bench data mx = Some (prev, d) /\
    entries d = assoc_define (entries data) name
                  (match assoc_get (entries data) name with
                   | None => [bench]
                   | Some suites => truncate mx (suites ++ [bench])
                   end).
Proof.
  intros now groupBy schema name bench data mx Hn. unfold addBenchmarkToDataJson.
  destruct (assoc_get (entries data) name) as [suites|].
  - eexists. eexists. split; reflexivity.
  - destruct (includes object_prototype_names name) eqn:Ei.
    + exfalso. apply Hn. unfold includes in Ei. apply existsb_exists in Ei.
      destruct Ei as [w [Hw Hwe]]. apply str_eqb_eq in Hwe. subst. exact Hw.
    + eexists. eexists. split; reflexivity.
Qed.

Lemma not_proto_name : forall name, ~ In name object_prototype_names -> is_proto name = false.
Proof.
  intros name Hn. unfold is_proto. destruct (str_eqb name (js "__proto__")) eqn:E; [|reflexivity].
  apply str_eqb_eq in E. subst. exfalso. apply Hn. simpl. tauto.
Qed.

(* ------------------------------------------------------------------ *)
(** ** Lemmas: string-valued metadata and the trace group object *)


















(* ------------------------------------------------------------------ *)
(** ** Lemmas: group keys of traces *)














(* ------------------------------------------------------------------ *)
(** ** Lemmas: [Object.groupBy] covers the traces; the filter values *)

Section GroupCover.
Variable A : Type.
Variable keyOf : A -> option jsstring.





End GroupCover.




Lemma in_assoc_define : forall {B} (l : list (jsstring * B)) k v k' v',
  In (k', v') (assoc_define l k v) -> (k' = k /\ v' = v) \/ In (k', v') l.
Proof.
  intros B. induction l as [|[k0 v0] r IH]; intros k v k' v' H; simpl in H.
  - destruct H as [H|[]]. injection H as <- <-. auto.
  - destruct (str_eqb k k0) eqn:E.
    + apply str_eqb_eq in E. subst k0. destruct H as [H|H]; [injection H as <- <-; auto|].
      right. right. exact H.
    + destruct H as [H|H]; [right; left; exact H|].
      destruct (IH k v k' v' H) as [H1|H1]; [auto|right; right; exact H1].
Qed.



Lemma nodup_assoc_define : forall {B} (l : list (jsstring * B)) k v,
  NoDup (map fst l) -> NoDup (map fst (assoc_define l k v)).
Proof.
  intros B. induction l as [|[k0 v0] r IH]; intros k v Hnd; simpl in *.
  - constructor; [intros []|constructor].
  - inversion Hnd as [|? ? Hn Hr]; subst.
    destruct (str_eqb k k0) eqn:E; simpl; [constructor; assumption|].
    constructor; [|apply IH; exact Hr].
    intro Hin. apply in_map_iff in Hin. destruct Hin as [[k1 v1] [Hk1 Hin]]. simpl in Hk1. subst k1.
    destruct (in_assoc_define r k v k0 v1 Hin) as [[-> _]|Hin'].
    + rewrite str_eqb_refl in E. discriminate.
    + apply Hn. apply (in_map fst) in Hin'. exact Hin'.
Qed.



(* ------------------------------------------------------------------ *)
(** ** Lemmas: parsed group keys and their attributes *)









(* ------------------------------------------------------------------ *)
(** ** Lemmas: the charts of [renderAllCharts] *)













(* ------------------------------------------------------------------ *)
(** ** Lemmas: toggling one filter checkbox *)

Lemma attr_lookup_update : forall l k v k',
  attr_lookup (attr_update l k v) k' = if str_eqb k' k then Some v else attr_lookup l k'.
Proof.
  induction l as [|[k0 v0] r IH]; intros k v k'; simpl.
  - destruct (str_eqb k' k); reflexivity.
  - destruct (str_eqb k k0) eqn:E; simpl.
    + apply str_eqb_eq in E. subst k0. destruct (str_eqb k' k); reflexivity.
    + destruct (str_eqb k' k0) eqn:E'; [|apply IH].
      apply str_eqb_eq in E'. subst k0. destruct (str_eqb k' k) eqn:E''; [|reflexivity].
      apply str_eqb_eq in E''. subst k'. rewrite str_eqb_refl in E. discriminate.
Qed.

Lemma toggle_step : forall key value hidden c,
  ascii_lower key <> hidden_by -> toggle_state key value hidden c ->
  exists c', on_checkbox_change [c] (hidden, key, value) = [c'] /\
    toggle_state key value (negb hidden) c'.
Proof.
  intros key value hidden c Hk [Hv [Hd Hh]].
  assert (Hkey : forall s d, getAttribute (mkChart (attr_update (attrs c) hidden_by s) d) key
                             = Some value).
  { intros s d. unfold getAttribute. simpl. rewrite attr_lookup_update.
    destruct (str_eqb (ascii_lower key) hidden_by) eqn:E.
    - apply str_eqb_eq in E. contradiction.
    - exact Hv. }
  assert (Hhb : forall s d, getAttribute (mkChart (attr_update (attrs c) hidden_by s) d) hidden_by
                            = Some s).
  { intros s d. unfold getAttribute. simpl. rewrite attr_lookup_update. reflexivity. }
  cbn [on_checkbox_change setChartHiddenStatus map]. rewrite Hv, str_eqb_refl.
  destruct hidden; simpl negb.
  - destruct Hh as [Hh|Hh];
      (exists (mkChart (attr_update (attrs c) hidden_by (js "0")) false); split;
       [unfold update_chart; rewrite Hh; reflexivity
       |split; [apply Hkey|split; [reflexivity|right; apply Hhb]]]).
  - destruct Hh as [Hh|Hh].
    + exists (mkChart (attr_update (attrs c) hidden_by (js "1")) true). split.
      * unfold update_chart. rewrite Hh. reflexivity.
      * split; [apply Hkey|split; [reflexivity|left; apply Hhb]].
    + exists (mkChart (attr_update (attrs c) hidden_by (js "01")) true). split.
      * unfold update_chart. rewrite Hh. reflexivity.
      * split; [apply Hkey|split; [reflexivity|right; apply Hhb]].
Qed.

Lemma toggle_run : forall key value c n,
  ascii_lower key <> hidden_by -> toggle_state key value false c ->
  exists c', fold_left on_checkbox_change (map (fun i => (Nat.odd i, key, value)) (seq 0 n)) [c]
             = [c'] /\ toggle_state key value (Nat.odd n) c'.
Proof.
  intros key value c n Hk H0. induction n as [|n IH].
  - exists c. split; [reflexivity|exact H0].
  - destruct IH as [c1 [Hf Hs]].
    destruct (toggle_step key value (Nat.odd n) c1 Hk Hs) as [c2 [Hc2 Hs2]].
    exists c2. rewrite seq_S, map_app, fold_left_app, Hf. simpl. split; [exact Hc2|].
    rewrite Nat.odd_succ, <- Nat.negb_odd. exact Hs2.
Qed.


(* ------------------------------------------------------------------ *)
(** ** Lemmas: the chart elements of [renderAllCharts] *)









(* ================================================================== *)
(** * Claims *)

(** ** C2: key codec injectivity *)




(** ** C3: key codec round trip *)




(** ** C6: unit conversion *)

(** C6: for a value tagged with a unit string, [getNanoseconds] succeeds
    exactly when the unit's first character is [n], [u], [µ], [μ], [m] or
    [s], multiplying by 1, 1e3, 1e3, 1e3, 1e6, 1e9 respectively; for any
    other first character (or an empty unit) it throws. *)
Theorem getNanoseconds_table : forall (v : Q) (u : jsstring),
  (getNanoseconds v u = None <->
     match u with [] => True | c :: _ => spec_prefix_factor c = None end) /\
  (forall c rest f, u = c :: rest -> spec_prefix_factor c = Some f ->
     exists r, getNanoseconds v u = Some r /\ Qeq r (v * f)).
Proof.
  intros v u. split.
  - destruct u as [|c rest]; simpl; [tauto|].
    unfold spec_prefix_factor.
    destruct (c =? 956)%N eqn:E1; destruct (c =? 181)%N eqn:E2;
    destruct (c =? 117)%N eqn:E3; destruct (c =? 110)%N eqn:E4;
    destruct (c =? 109)%N eqn:E5; destruct (c =? 115)%N eqn:E6; simpl;
    split; intro H; try discriminate; try reflexivity.
  - intros c rest f -> Hf. simpl. unfold spec_prefix_factor in Hf.
    destruct (c =? 956)%N eqn:E1; destruct (c =? 181)%N eqn:E2;
    destruct (c =? 117)%N eqn:E3; destruct (c =? 110)%N eqn:E4;
    destruct (c =? 109)%N eqn:E5; destruct (c =? 115)%N eqn:E6; simpl in *;
    try discriminate;
    repeat match goal with
           | H : (c =? _)%N = true |- _ => apply N.eqb_eq in H; subst c
           end;
    try discriminate; injection Hf as <-; eexists; split; try reflexivity; ring.
Qed.

Lemma C6_witness :
  (forall c rest f, js "ms" = c :: rest -> spec_prefix_factor c = Some f ->
     exists r, getNanoseconds 3 (js "ms") = Some r /\ Qeq r (3 * f)) /\
  getNanoseconds 3 (js "ms") = Some (3 * 1000000)%Q /\
  (getNanoseconds 3 (js "x/iter") = None <->
     match js "x/iter" with [] => True | c :: _ => spec_prefix_factor c = None end).
Proof.
  split; [exact (proj2 (getNanoseconds_table 3 (js "ms")))|].
  split; [reflexivity|].
  exact (proj1 (getNanoseconds_table 3 (js "x/iter"))).
Defined.

(** ** C4: display-unit selection *)

(** C4: for every non-empty collection of nanosecond values whose maximum is
    [m], [adjustDataAndUnit] chooses [s/iter] (divisor 1e9) if [m > 1e9],
    else [ms/iter] (1e6) if [m > 1e6], else [μs/iter] (1e3) if [m > 1e3],
    else [ns/iter] (1), and divides every value by that one divisor
    (values are exact rationals here, standing for the code's doubles). *)
Theorem adjustDataAndUnit_spec : forall (dataNs : list (list Q)) (m : Q),
  In m (List.concat dataNs) ->
  (forall v, In v (List.concat dataNs) -> (v <= m)%Q) ->
  adjustDataAndUnit dataNs =
    (snd (spec_display_unit m),
     map (fun d => map (fun v => (v / fst (spec_display_unit m))%Q) d) dataNs).
Proof.
  intros dataNs m Hm Hub.
  destruct (nested_max_spec dataNs m Hm) as [x [Hx [Hxin Hxub]]].
  assert (Hxm : (x == m)%Q).
  { apply Qle_antisym; [apply Hub; exact Hxin|apply Hxub; exact Hm]. }
  unfold adjustDataAndUnit. rewrite Hx, (best_unit_spec x m Hxm).
  destruct (spec_display_unit m) as [scale unit]. reflexivity.
Qed.

Lemma C4_witness :
  In 1200000000%Q (List.concat [[1200000000; 500]%Q]) /\
  (forall v, In v (List.concat [[1200000000; 500]%Q]) -> (v <= 1200000000)%Q) /\
  adjustDataAndUnit [[1200000000; 500]%Q] =
    (snd (spec_display_unit 1200000000),
     map (fun d => map (fun v => (v / fst (spec_display_unit 1200000000))%Q) d)
       [[1200000000; 500]%Q]) /\
  snd (spec_display_unit 1200000000) = js "s/iter" /\
  fst (spec_display_unit 1200000000) = 1000000000%Q.
Proof.
  assert (H1 : In 1200000000%Q (List.concat [[1200000000; 500]%Q]))
    by (simpl; auto).
  assert (H2 : forall v, In v (List.concat [[1200000000; 500]%Q]) ->
                 (v <= 1200000000)%Q).
  { simpl. intros v [<-|[<-|[]]]; vm_compute; discriminate. }
  split; [exact H1|]. split; [exact H2|].
  split; [exact (adjustDataAndUnit_spec [[1200000000; 500]%Q] 1200000000 H1 H2)|].
  split; reflexivity.
Defined.

(** The scaled values of the example are [1.2] and [0.0000005]. *)
Example adjustDataAndUnit_example :
  adjustDataAndUnit [[1200000000; 500]%Q] =
    (js "s/iter", [[1200000000 / 1000000000; 500 / 1000000000]%Q]) /\
  (1200000000 / 1000000000 == 6 # 5)%Q /\ (500 / 1000000000 == 1 # 2000000)%Q.
Proof. split; [reflexivity|]. split; reflexivity. Qed.

(** ** C1: the hidden-by counter of the filter interface *)

(** C1 (the code does not keep a counter): the [hidden-by] attribute is read
    back as a string, so [hiddenBy += 1] concatenates. For a chart matching
    [{os: linux}] and [{keySize: 512}], unchecking [linux] gives ["1"],
    unchecking [512] gives ["11"], re-checking [linux] gives ["10"] and
    re-checking [512] gives ["9"]: after every filter is checked again the
    chart is still hidden, where the counter of the comment
    "only unhide if not hidden by another" would be back at 0 and the chart
    visible. *)
Theorem setChartHiddenStatus_string_counter :
  let c0 := [new_chart [(js "os", js "linux"); (js "keySize", js "512")]] in
  let c1 := on_checkbox_change c0 (false, js "os", js "linux") in
  let c2 := on_checkbox_change c1 (false, js "keySize", js "512") in
  let c3 := on_checkbox_change c2 (true, js "os", js "linux") in
  let c4 := on_checkbox_change c3 (true, js "keySize", js "512") in
  map (fun c => (getAttribute c hidden_by, display_none c)) (c0 ++ c1 ++ c2 ++ c3 ++ c4) =
    [(None, false);
     (Some (js "1"), true);
     (Some (js "11"), true);
     (Some (js "10"), true);
     (Some (js "9"), true)].
Proof. vm_compute. reflexivity. Qed.

(** ** C5: legend names *)

(** C5 (the sentinel is not omitted): [parseKey] fills a field missing from a
    result with the string ["-"], never [undefined], while [getLegendName]
    only drops [undefined] values, as its comment "don't include the fields
    whose values are [undefined]" intends for missing fields. A result
    [{name: "enc", os: "linux", value: 1200, unit: "ns/iter"}] under the
    schema [[name, os, keySize]] and groupBy [[os]] gets the legend
    ["enc -"], which keeps the sentinel of the missing [keySize]. *)
Theorem getLegendName_keeps_sentinel :
  let schema := [js "name"; js "os"; js "keySize"] in
  let bench := [(js "name", JStr (js "enc")); (js "os", JStr (js "linux"));
                (js "value", JNum 1200); (js "unit", JStr (js "ns/iter"))] in
  let history := [mkBenchmark (mkCommit (js "abc") (js "msg") (js "url")) 0 false [bench]] in
  exists tr, separateAllTraces history schema = Some [tr] /\
    own_get (metadata tr) (js "keySize") = Some (JStr (js "-")) /\
    getLegendName tr [js "os"] schema = js "enc -".
Proof. vm_compute. eexists. repeat split; reflexivity. Qed.

(** ** C7: tooltips *)

(** C7 (counterexample): the tooltip starts with the trace's legend name,
    not the benchmark name. With the schema [[name, os]] and groupBy
    [[name]] the legend name is ["linux"] and the tooltip of the result
    named ["enc"] does not contain ["enc"]. *)
Lemma C7_tooltip_lacks_benchmark_name :
  let schema := [js "name"; js "os"] in
  let bench := [(js "name", JStr (js "enc")); (js "os", JStr (js "linux"));
                (js "value", JNum 1200); (js "unit", JStr (js "ns/iter"))] in
  let history := [mkBenchmark (mkCommit (js "abc") (js "msg") (js "url")) 0 false [bench]] in
  exists tr t, separateAllTraces history schema = Some [tr] /\
    addLegendNameAndTooltip tr [js "name"] schema = (js "linux", [t]) /\
    ~ contains t (js "enc").
Proof.
  intros schema bench history. do 2 eexists.
  split; [reflexivity|]. split; [reflexivity|].
  intro H. apply containsb_complete in H. vm_compute in H. discriminate.
Qed.

(** C7 (amended): for every observation of a trace, the tooltip text that
    [addLegendNameAndTooltip] writes for it contains the trace's legend name
    (the name written into the trace), the value, the unit, the range when
    it is truthy, the commit id, the commit message and the commit url. *)
Theorem tooltip_contents : forall tr groupBy schema i o t,
  nth_error (dataset tr) i = Some o ->
  nth_error (snd (addLegendNameAndTooltip tr groupBy schema)) i = Some t ->
  let name := fst (addLegendNameAndTooltip tr groupBy schema) in
  name = getLegendName tr groupBy schema /\
  contains t name /\
  contains t (to_string (get (obs_bench o) (js "value"))) /\
  contains t (to_string (get (obs_bench o) (js "unit"))) /\
  (truthy (get (obs_bench o) (js "range")) = true ->
     contains t (to_string (get (obs_bench o) (js "range")))) /\
  contains t (commit_id (obs_commit o)) /\
  contains t (commit_message (obs_commit o)) /\
  contains t (commit_url (obs_commit o)).
Proof.
  intros tr groupBy schema i o t Ho Ht name. subst name. simpl in *.
  rewrite nth_error_map, Ho in Ht. simpl in Ht. injection Ht as <-.
  unfold getObservationTooltipText.
  split; [reflexivity|].
  split; [find_piece|]. split; [find_piece|]. split; [find_piece|].
  split; [intro Hr; rewrite Hr; find_piece|].
  split; [find_piece|]. split; find_piece.
Qed.

Lemma C7_witness :
  let o := mkObservation (mkCommit (js "abc") (js "msg") (js "url")) 0
             [(js "name", JStr (js "enc")); (js "os", JStr (js "linux"));
              (js "value", JNum 1200); (js "unit", JStr (js "ns/iter"));
              (js "range", JStr (js "+/- 3"))] in
  let tr := mkTrace [(js "name", JStr (js "enc")); (js "os", JStr (js "linux"));
                     (js "unit", JStr (js "ns/iter"))] [0%Z] [1200%Q] [o] in
  let gb := [js "os"] in
  let sc := [js "name"; js "os"] in
  let t := getObservationTooltipText (js "enc") o in
  nth_error (dataset tr) 0 = Some o /\
  nth_error (snd (addLegendNameAndTooltip tr gb sc)) 0 = Some t /\
  (let name := fst (addLegendNameAndTooltip tr gb sc) in
   name = getLegendName tr gb sc /\
   contains t name /\
   contains t (to_string (get (obs_bench o) (js "value"))) /\
   contains t (to_string (get (obs_bench o) (js "unit"))) /\
   (truthy (get (obs_bench o) (js "range")) = true ->
      contains t (to_string (get (obs_bench o) (js "range")))) /\
   contains t (commit_id (obs_commit o)) /\
   contains t (commit_message (obs_commit o)) /\
   contains t (commit_url (obs_commit o))).
Proof.
  intros o tr gb sc t.
  assert (H1 : nth_error (dataset tr) 0 = Some o) by reflexivity.
  assert (H2 : nth_error (snd (addLegendNameAndTooltip tr gb sc)) 0 = Some t)
    by (vm_compute; reflexivity).
  split; [exact H1|]. split; [exact H2|].
  exact (tooltip_contents tr gb sc 0 o t H1 H2).
Defined.

(** ** C8: the trace builder *)




(** ** C9: default schema and groupBy *)

(** C9 (counterexample): an entry that is present for the suite but invalid
    (here [schema: {suite: null}]) is returned as it is: no default is
    substituted and no diagnostic is emitted. *)
Lemma C9_invalid_entry_kept :
  retrieveSchema [(js "schema", JObj [(js "suite", JNull)])] (js "suite") = Some (JNull, []).
Proof. vm_compute. reflexivity. Qed.

(** C9 (amended): for every requested suite [B], when the document's
    [schema] (resp. [groupBy]) value is missing or falsy, is not an object,
    or has no own entry for [B], the renderer continues with the default
    field list ([["name", "platform", "os", "keySize", "api", "category"]],
    resp. [["os"]]) and emits one diagnostic; when it has an own entry for
    [B], that entry is used as it is, without a diagnostic; provided neither
    the document's [schema] value nor its [groupBy] value is an object with
    an own property named [hasOwnProperty] (the call
    [schema.hasOwnProperty(benchSet)] would throw). *)
Theorem retrieve_defaults_when_no_entry : forall (D : obj) (B : jsstring),
  no_own_hasOwnProperty (get D (js "schema")) ->
  no_own_hasOwnProperty (get D (js "groupBy")) ->
  (entry_present (get D (js "schema")) B ->
     retrieveSchema D B = Some (get_val (get D (js "schema")) B, [])) /\
  (~ entry_present (get D (js "schema")) B ->
     exists m, retrieveSchema D B = Some (str_array defaultSchema, [m])) /\
  (entry_present (get D (js "groupBy")) B ->
     retrieveGroupBy D B = Some (get_val (get D (js "groupBy")) B, [])) /\
  (~ entry_present (get D (js "groupBy")) B ->
     exists m, retrieveGroupBy D B = Some (str_array defaultGroupBy, [m])).
Proof.
  intros D B Hs Hg.
  destruct (retrieve_field_spec (js "schema") defaultSchema
              (js "No or invalid schema provided: defaulting to ") D B Hs) as [S1 S2].
  destruct (retrieve_field_spec (js "groupBy") defaultGroupBy
              (js "No or invalid groupBy provided: defaulting to ") D B Hg) as [G1 G2].
  unfold retrieveSchema, retrieveGroupBy. auto.
Qed.

Lemma C9_witness :
  let D := [(js "schema", JObj [(js "suite", str_array [js "name"])]);
            (js "groupBy", JStr (js "os"))] in
  no_own_hasOwnProperty (get D (js "schema")) /\
  no_own_hasOwnProperty (get D (js "groupBy")) /\
  ((entry_present (get D (js "schema")) (js "suite") ->
     retrieveSchema D (js "suite") = Some (get_val (get D (js "schema")) (js "suite"), [])) /\
   (~ entry_present (get D (js "schema")) (js "suite") ->
     exists m, retrieveSchema D (js "suite") = Some (str_array defaultSchema, [m])) /\
   (entry_present (get D (js "groupBy")) (js "suite") ->
     retrieveGroupBy D (js "suite") = Some (get_val (get D (js "groupBy")) (js "suite"), [])) /\
   (~ entry_present (get D (js "groupBy")) (js "suite") ->
     exists m, retrieveGroupBy D (js "suite") = Some (str_array defaultGroupBy, [m]))) /\
  retrieveSchema D (js "suite") = Some (str_array [js "name"], []) /\
  (exists m, retrieveGroupBy D (js "suite") = Some (str_array defaultGroupBy, [m])).
Proof.
  intros D.
  assert (H1 : no_own_hasOwnProperty (get D (js "schema"))) by reflexivity.
  assert (H2 : no_own_hasOwnProperty (get D (js "groupBy"))) by exact I.
  pose proof (retrieve_defaults_when_no_entry D (js "suite") H1 H2) as HT.
  split; [exact H1|]. split; [exact H2|]. split; [exact HT|].
  destruct HT as [HS1 [_ [_ HG2]]].
  split.
  - rewrite HS1; [reflexivity|]. split; [reflexivity|]. split; reflexivity.
  - apply HG2. intros [_ [Ho _]]. vm_compute in Ho. discriminate.
Defined.

(** ** C10: appending to the history *)

(** C10 (counterexample): a suite that does not exist yet is created with
    the new entry and is not truncated, so with [maxItems = 0] it keeps one
    entry. *)
Lemma C10_new_suite_not_truncated :
  let bench := mkBenchmark (mkCommit (js "abc") (js "msg") (js "url")) 0 false [] in
  let data := mkDataJson 0 (js "repo") [] None None in
  exists prev data',
    addBenchmarkToDataJson 1 [] [] (js "suite") bench data (Some 0%Z) = Some (prev, data') /\
    assoc_get (entries data') (js "suite") = Some [bench].
Proof. do 2 eexists. split; reflexivity. Qed.

(** C10 (amended): for every data document, suite name that is not a member
    of [Object.prototype] and new entry, [addBenchmarkToDataJson] leaves the
    other suites unchanged; if the suite does not exist it creates it as the
    one-element suite of the new entry (not truncated) and returns [null];
    otherwise the suite becomes the existing entries followed by the new
    one, cut to its last [maxItems] entries when [maxItems] is non-null
    (none when [maxItems <= 0]), and the returned entry is the most recent
    existing entry whose commit id differs from the new entry's ([null] when
    there is none). *)
Theorem addBenchmarkToDataJson_appends : forall now groupBy schema benchName bench data maxItems,
  ~ In benchName object_prototype_names ->
  exists prev data',
    addBenchmarkToDataJson now groupBy schema benchName bench data maxItems
      = Some (prev, data') /\
    (forall k, k <> benchName -> assoc_get (entries data') k = assoc_get (entries data) k) /\
    (assoc_get (entries data) benchName = None ->
       assoc_get (entries data') benchName = Some [bench] /\ prev = None) /\
    (forall suites, assoc_get (entries data) benchName = Some suites ->
       assoc_get (entries data') benchName =
         Some (match maxItems with
               | None => suites ++ [bench]
               | Some m => last_items (Z.to_nat m) (suites ++ [bench])
               end) /\
       (prev = None ->
          Forall (fun e => commit_id (commit e) = commit_id (commit bench)) suites) /\
       (forall e, prev = Some e ->
          exists before after, suites = before ++ e :: after /\
            commit_id (commit e) <> commit_id (commit bench) /\
            Forall (fun e' => commit_id (commit e') = commit_id (commit bench)) after)).
Proof.
  intros now groupBy schema benchName bench data maxItems Hnp.
  assert (Hinc : includes object_prototype_names benchName = false).
  { unfold includes. destruct (existsb _ _) eqn:E; [|reflexivity].
    exfalso. apply Hnp. apply existsb_exists in E as [x [Hx Hxe]].
    apply str_eqb_eq in Hxe. subst. exact Hx. }
  unfold addBenchmarkToDataJson.
  destruct (assoc_get (entries data) benchName) as [suites|] eqn:Hget.
  - do 2 eexists. split; [reflexivity|]. simpl.
    split; [intros k Hk; rewrite assoc_get_define;
            destruct (str_eqb k benchName) eqn:E;
            [apply str_eqb_eq in E; contradiction|reflexivity]|].
    split; [discriminate|].
    intros s Hs. injection Hs as <-.
    rewrite assoc_get_define, str_eqb_refl. split.
    + destruct maxItems as [m|]; [rewrite truncate_last_items|]; reflexivity.
    + destruct (find_prev_spec (rev suites) (commit_id (commit bench))) as [H1 H2].
      split.
      * intros Hn. apply H1 in Hn. apply Forall_rev in Hn. rewrite rev_involutive in Hn.
        exact Hn.
      * intros e He. destruct (H2 e He) as [b [a [Hr [Hb He']]]].
        exists (rev a), (rev b). split; [|split; [exact He'|apply Forall_rev; exact Hb]].
        rewrite <- (rev_involutive suites), Hr, rev_app_distr. simpl.
        rewrite <- app_assoc. reflexivity.
  - rewrite Hinc. do 2 eexists. split; [reflexivity|]. simpl.
    split; [intros k Hk; rewrite assoc_get_define;
            destruct (str_eqb k benchName) eqn:E;
            [apply str_eqb_eq in E; contradiction|reflexivity]|].
    split; [|discriminate].
    intros _. rewrite assoc_get_define, str_eqb_refl. auto.
Qed.

Lemma C10_witness :
  let old := mkBenchmark (mkCommit (js "c0") (js "m0") (js "u0")) 0 false [] in
  let same := mkBenchmark (mkCommit (js "c1") (js "m1") (js "u1")) 1 false [] in
  let bench := mkBenchmark (mkCommit (js "c1") (js "m1") (js "u1")) 2 false [] in
  let data := mkDataJson 0 (js "repo") [(js "suite", [old; same])] None None in
  ~ In (js "suite") object_prototype_names /\
  (exists prev data',
    addBenchmarkToDataJson 3 [] [] (js "suite") bench data (Some 2%Z)
      = Some (prev, data') /\
    (forall k, k <> js "suite" -> assoc_get (entries data') k = assoc_get (entries data) k) /\
    (assoc_get (entries data) (js "suite") = None ->
       assoc_get (entries data') (js "suite") = Some [bench] /\ prev = None) /\
    (forall suites, assoc_get (entries data) (js "suite") = Some suites ->
       assoc_get (entries data') (js "suite") =
         Some (match Some 2%Z with
               | None => suites ++ [bench]
               | Some m => last_items (Z.to_nat m) (suites ++ [bench])
               end) /\
       (prev = None ->
          Forall (fun e => commit_id (commit e) = commit_id (commit bench)) suites) /\
       (forall e, prev = Some e ->
          exists before after, suites = before ++ e :: after /\
            commit_id (commit e) <> commit_id (commit bench) /\
            Forall (fun e' => commit_id (commit e') = commit_id (commit bench)) after))) /\
  addBenchmarkToDataJson 3 [] [] (js "suite") bench data (Some 2%Z) =
    Some (Some old, mkDataJson 3 (js "repo") [(js "suite", [same; bench])]
                      (Some [(js "suite", [])]) (Some [(js "suite", [])])).
Proof.
  intros old same bench data.
  assert (H : ~ In (js "suite") object_prototype_names).
  { intro Hin. apply existsb_in in Hin. vm_compute in Hin. discriminate. }
  split; [exact H|]. split.
  - exact (addBenchmarkToDataJson_appends 3 [] [] (js "suite") bench data (Some 2%Z) H).
  - reflexivity.
Defined.

(** A suite named like a member of [Object.prototype] ([constructor]) that
    is not in the document yet is read from the prototype, and [slice] on it
    throws a TypeError. *)
Example addBenchmarkToDataJson_constructor_suite_throws :
  addBenchmarkToDataJson 1 [] [] (js "constructor")
    (mkBenchmark (mkCommit (js "abc") (js "msg") (js "url")) 0 false [])
    (mkDataJson 0 (js "repo") [] None None) None = None.
Proof. reflexivity. Qed.

(* ================================================================== *)
(** * Further properties of the code *)

(** [parseSchema] and [parseGroupBy] of a non-empty argument: the list is
    [split(",")] of the argument, its pieces hold no comma, and joining them
    with commas gives the argument back. *)
Theorem parseSchema_parseGroupBy_split : forall s, s <> [] ->
  parseSchema (Some s) = split_on 44 s /\ parseGroupBy (Some s) = split_on 44 s /\
  join [44%N] (parseSchema (Some s)) = s /\
  Forall (fun k => ~ In 44%N k) (parseSchema (Some s)).
Proof.
  intros s Hs.
  assert (Hp : parseSchema (Some s) = split_on 44 s /\ parseGroupBy (Some s) = split_on 44 s).
  { unfold parseSchema, parseGroupBy. cbv zeta.
    destruct (split_on 44 s) as [|k [|k2 r]] eqn:E; try (split; reflexivity).
    destruct (str_eqb k []) eqn:Ek; [|split; reflexivity].
    apply str_eqb_eq in Ek. exfalso. exact (Hs (split_on_empty_piece 44 s k E Ek)). }
  destruct Hp as [H1 H2]. rewrite H1.
  split; [reflexivity|]. split; [exact H2|]. split; [apply join_split|apply split_no_sep].
Qed.

Lemma parseSchema_parseGroupBy_split_witness :
  js "name,os" <> [] /\
  parseSchema (Some (js "name,os")) = split_on 44 (js "name,os").
Proof.
  split; [discriminate|].
  apply (parseSchema_parseGroupBy_split (js "name,os")). discriminate.
Defined.

(** A non-empty list of comma-free names other than the single empty name,
    joined with commas, is parsed back to itself by [parseSchema] and by
    [parseGroupBy]. *)
Theorem parseSchema_parseGroupBy_join : forall l, l <> [] -> l <> [[]] ->
  Forall (fun k => ~ In 44%N k) l ->
  parseSchema (Some (join [44%N] l)) = l /\ parseGroupBy (Some (join [44%N] l)) = l.
Proof.
  intros l Hne Hnn Hall. unfold parseSchema, parseGroupBy. cbv zeta.
  rewrite split_join by assumption.
  destruct l as [|k [|k2 r]]; try congruence; try (split; reflexivity).
  destruct (str_eqb k []) eqn:Ek; [apply str_eqb_eq in Ek; subst; congruence|].
  split; reflexivity.
Qed.

Lemma parseSchema_parseGroupBy_join_witness :
  parseSchema (Some (join [44%N] [js "os"; js "api"])) = [js "os"; js "api"].
Proof.
  apply (parseSchema_parseGroupBy_join [js "os"; js "api"]);
    [discriminate|discriminate|].
  repeat constructor; simpl; intuition discriminate.
Defined.

(** [loadBenchmarkResult] keeps the results in order and, in each, makes
    every schema field an own property (except [__proto__]), leaves the
    other present fields as they were, keeps [range] and [extra] when truthy
    and sets them to [undefined] otherwise (for a non-empty schema), and adds
    no property but a schema field, [range] or [extra], valued [undefined]. *)
Theorem loadBenchmarkResult_normalizes : forall c bigger results schema now i r,
  nth_error results i = Some r ->
  exists r', nth_error (benches (loadBenchmarkResult c bigger results schema now)) i = Some r' /\
    (forall k, In k schema -> is_proto k = false -> own_get r' k <> None) /\
    (forall k v, own_get r k = Some v -> k <> js "range" -> k <> js "extra" ->
       own_get r' k = Some v) /\
    (schema <> [] ->
       own_get r' (js "range") = falsy_to_undef r (js "range") /\
       own_get r' (js "extra") = falsy_to_undef r (js "extra")) /\
    (forall k, own_get r k = None ->
       own_get r' k = None \/
       (own_get r' k = Some JUndef /\ (In k schema \/ k = js "range" \/ k = js "extra"))).
Proof.
  intros c bigger results schema now i r Hr.
  exists (normalize_result schema r). simpl. split; [rewrite nth_error_map, Hr; reflexivity|].
  split; [intros k Hk Hp; apply fold_adds_schema; assumption|].
  split; [intros k v Hk Hr1 He; apply fold_keeps; assumption|].
  split; [intros Hne; split; apply fold_range_extra; auto|].
  intros k Hk. apply fold_new. exact Hk.
Qed.

Lemma loadBenchmarkResult_normalizes_witness :
  nth_error [[(js "name", JStr (js "a")); (js "range", JStr [])]] 0 =
    Some [(js "name", JStr (js "a")); (js "range", JStr [])] /\
  exists r', nth_error (benches (loadBenchmarkResult (mkCommit (js "c") (js "m") (js "u")) true
                 [[(js "name", JStr (js "a")); (js "range", JStr [])]] defaultSchema 0)) 0 = Some r' /\
    own_get r' (js "range") = Some JUndef.
Proof.
  split; [reflexivity|].
  destruct (loadBenchmarkResult_normalizes (mkCommit (js "c") (js "m") (js "u")) true
              [[(js "name", JStr (js "a")); (js "range", JStr [])]] defaultSchema 0 0
              [(js "name", JStr (js "a")); (js "range", JStr [])] eq_refl)
    as [r' [H1 [_ [_ [H4 _]]]]].
  exists r'. split; [exact H1|]. rewrite (proj1 (H4 ltac:(discriminate))). reflexivity.
Defined.

(** [addBenchmarkToDataJson] stamps [lastUpdate], keeps [repoUrl], creates
    the [groupBy] and [schema] maps when missing, records the suite's lists
    in them (unless the suite is named [__proto__], which leaves both maps
    as they were) and leaves the other suites' lists unchanged. *)
Theorem addBenchmarkToDataJson_maps : forall now groupBy schema name bench data mx prev d,
  addBenchmarkToDataJson now groupBy schema name bench data mx = Some (prev, d) ->
  lastUpdate d = now /\ repoUrl d = repoUrl data /\
  exists gb sc, groupByMap d = Some gb /\ schemaMap d = Some sc /\
    (is_proto name = false -> assoc_get gb name = Some groupBy /\ assoc_get sc name = Some schema) /\
    (forall k, k <> name \/ is_proto name = true ->
       assoc_get gb k = match groupByMap data with Some m => assoc_get m k | None => None end /\
       assoc_get sc k = match schemaMap data with Some m => assoc_get m k | None => None end).
Proof.
  intros now groupBy schema name bench data mx prev d H.
  destruct (add_fields _ _ _ _ _ _ _ _ _ H) as [H1 [H2 [H3 H4]]].
  split; [exact H1|]. split; [exact H2|].
  do 2 eexists. split; [exact H3|]. split; [exact H4|].
  split.
  - intros Hp. rewrite !assoc_get_assign, Hp, !str_eqb_refl. split; reflexivity.
  - intros k Hk. rewrite !assoc_get_assign.
    destruct (is_proto name) eqn:Hp.
    + split; [destruct (groupByMap data)|destruct (schemaMap data)]; reflexivity.
    + destruct Hk as [Hk|Hk]; [|discriminate].
      apply str_eqb_neq in Hk. rewrite Hk.
      split; [destruct (groupByMap data)|destruct (schemaMap data)]; reflexivity.
Qed.

Lemma addBenchmarkToDataJson_maps_witness :
  exists prev d,
    addBenchmarkToDataJson 5%Z [js "os"] defaultSchema (js "suite")
      (mkBenchmark (mkCommit (js "c") (js "m") (js "u")) 0%Z true [])
      (mkDataJson 0%Z (js "repo") [] None (Some [(js "other", [js "name"])])) None = Some (prev, d) /\
    lastUpdate d = 5%Z.
Proof.
  do 2 eexists. split; [reflexivity|].
  exact (proj1 (addBenchmarkToDataJson_maps 5%Z [js "os"] defaultSchema (js "suite")
    (mkBenchmark (mkCommit (js "c") (js "m") (js "u")) 0%Z true [])
    (mkDataJson 0%Z (js "repo") [] None (Some [(js "other", [js "name"])])) None _ _ eq_refl)).
Defined.

(** The command-line entry point: it aborts unless it gets seven arguments
    and [bigger-is-better] is ["true"] or ["false"]; otherwise, for a suite
    name that [Object.prototype] does not carry, it appends the loaded
    benchmark (commit from the metadata, results normalised with the parsed
    schema) to the suite, never drops an old entry, leaves the other suites
    alone, stamps the time, and records the parsed group-by and schema. *)
Theorem update_main_spec : forall args metadata results data now1 now2,
  ((List.length args <> 7)%nat -> update_main args metadata results data now1 now2 = None) /\
  (forall name s g b a5 a6 a7, args = [name; s; g; b; a5; a6; a7] ->
     (b <> js "true" -> b <> js "false" ->
        update_main args metadata results data now1 now2 = None) /\
     (forall bigger, (b = js "true" /\ bigger = true \/ b = js "false" /\ bigger = false) ->
        ~ In name object_prototype_names ->
        exists d, update_main args metadata results data now1 now2 = Some d /\
          assoc_get (entries d) name =
            Some (match assoc_get (entries data) name with Some old => old | None => [] end ++
                  [loadBenchmarkResult (commit_of_metadata metadata) bigger results
                     (parseSchema (Some s)) now1]) /\
          (forall k, k <> name -> assoc_get (entries d) k = assoc_get (entries data) k) /\
          lastUpdate d = now2 /\
          (exists gb sc, groupByMap d = Some gb /\ schemaMap d = Some sc /\
             assoc_get gb name = Some (parseGroupBy (Some g)) /\
             assoc_get sc name = Some (parseSchema (Some s))))).
Proof.
  intros args metadata results data now1 now2. split.
  - intros Hl. unfold update_main. apply Nat.eqb_neq in Hl. rewrite Hl. reflexivity.
  - intros name s g b a5 a6 a7 ->. split.
    + intros Ht Hf. unfold update_main. simpl.
      unfold parse_bigger_is_better.
      destruct (str_eqb b (js "true")) eqn:E1; [apply str_eqb_eq in E1; congruence|].
      destruct (str_eqb b (js "false")) eqn:E2; [apply str_eqb_eq in E2; congruence|].
      reflexivity.
    + intros bigger Hb Hn.
      assert (Hp : parse_bigger_is_better b = Some bigger)
        by (destruct Hb as [[-> ->]|[-> ->]]; reflexivity).
      set (bench := loadBenchmarkResult (commit_of_metadata metadata) bigger results
                      (parseSchema (Some s)) now1).
      destruct (add_succeeds now2 (parseGroupBy (Some g)) (parseSchema (Some s)) name bench
                  data None Hn) as [prev [d [Hadd Hent]]].
      exists d. split.
      { unfold update_main.
        cbn -[parse_bigger_is_better addBenchmarkToDataJson loadBenchmarkResult parseSchema parseGroupBy].
        rewrite Hp. fold bench. rewrite Hadd. reflexivity. }
      destruct (add_fields _ _ _ _ _ _ _ _ _ Hadd) as [H1 [_ [Hg Hs]]].
      split; [|split; [|split; [exact H1|]]].
      * rewrite Hent, assoc_get_define, str_eqb_refl.
        destruct (assoc_get (entries data) name); reflexivity.
      * intros k Hk. rewrite Hent, assoc_get_define. apply str_eqb_neq in Hk. rewrite Hk. reflexivity.
      * do 2 eexists. split; [exact Hg|]. split; [exact Hs|].
        rewrite !assoc_get_assign, (not_proto_name name Hn), !str_eqb_refl. split; reflexivity.
Qed.

Lemma update_main_spec_witness :
  ~ In (js "suite") object_prototype_names /\
  exists d, update_main [js "suite"; js "name,os"; js "os"; js "true"; js "m.json";
                         js "base.json"; js "new.json"]
              (mkMetadata (js "me") (js "abc") (js "msg") (js "url") (js "t"))
              [[(js "name", JStr (js "x"))]]
              (mkDataJson 0%Z (js "repo") [] None None) 1%Z 2%Z = Some d.
Proof.
  assert (Hn : ~ In (js "suite") object_prototype_names).
  { intro Hin. apply existsb_in in Hin. vm_compute in Hin. discriminate. }
  split; [exact Hn|].
  destruct (proj2 (update_main_spec [js "suite"; js "name,os"; js "os"; js "true"; js "m.json";
                                     js "base.json"; js "new.json"]
              (mkMetadata (js "me") (js "abc") (js "msg") (js "url") (js "t"))
              [[(js "name", JStr (js "x"))]]
              (mkDataJson 0%Z (js "repo") [] None None) 1%Z 2%Z)
              _ _ _ _ _ _ _ eq_refl) as [_ H].
  destruct (H true (or_introl (conj eq_refl eq_refl)) Hn) as [d [Hd _]].
  exists d. exact Hd.
Defined.

(** ** Rendering all charts: [renderAllCharts] *)









(** ** Toggling one filter: [setChartHiddenStatus] *)

(** X10: a single filter checkbox, unchecked and checked again in turn,
    hides and shows a chart it matches in step with its state: starting from
    a visible chart with no [hidden-by] count (or ["0"]), after [n] change
    events the chart is hidden exactly when [n] is odd (the box is then
    unchecked); the [hidden-by] attribute runs through ["1"], ["0"], ["01"],
    ["0"], ["01"], ... and the filter attribute is kept. *)
Theorem single_filter_toggles : forall c key value n,
  ascii_lower key <> hidden_by -> toggle_state key value false c ->
  exists c', fold_left on_checkbox_change (map (fun i => (Nat.odd i, key, value)) (seq 0 n)) [c]
             = [c'] /\ display_none c' = Nat.odd n /\ toggle_state key value (Nat.odd n) c'.
Proof.
  intros c key value n Hk H0.
  destruct (toggle_run key value c n Hk H0) as [c' [Hf Hs]].
  exists c'. split; [exact Hf|]. split; [exact (proj1 (proj2 Hs))|exact Hs].
Qed.

Lemma single_filter_toggles_witness :
  ascii_lower (js "os") <> hidden_by /\
  toggle_state (js "os") (js "linux") false (new_chart [(js "os", js "linux")]) /\
  exists c', fold_left on_checkbox_change
               (map (fun i => (Nat.odd i, js "os", js "linux")) (seq 0 5))
               [new_chart [(js "os", js "linux")]] = [c'] /\
             display_none c' = true /\ toggle_state (js "os") (js "linux") true c'.
Proof.
  assert (Hk : ascii_lower (js "os") <> hidden_by) by (vm_compute; discriminate).
  assert (H0 : toggle_state (js "os") (js "linux") false (new_chart [(js "os", js "linux")])).
  { split; [reflexivity|split; [reflexivity|left; reflexivity]]. }
  split; [exact Hk|]. split; [exact H0|].
  exact (single_filter_toggles (new_chart [(js "os", js "linux")]) (js "os") (js "linux") 5 Hk H0).
Defined.


